(** * Elevator simulation: dispatch, direction policy and wait-queue bookkeeping

    A shallow embedding of [elevator_simulation/models/elevator.py] and of the
    call/board segment of [elevator_simulation/agents/person.py], with the
    properties of the natural-language specification stated over it.

    Python objects with identity (people, elevators of a bank, banks of a
    simulation) are referred to by a number: a person by its id, an elevator by
    its position in the bank's iteration order, a bank by its position in the
    simulation's bank list.  Methods that mutate [self] take the state and
    return the outcome together with the state they leave behind, so that
    an exception can be observed next to the (possibly unchanged) object. *)

From stdpp Require Import gmap list fin_sets.
From Stdlib Require Import ZArith Lia.

#[local] Set Warnings "-clear-no-such-hyp".

Local Open Scope Z_scope.

(** ** Exceptions and results *)

(** The messages of the exceptions raised explicitly by the source. *)
Inductive message :=
| NotAValidDirection      (* ElevatorBank.__wait_set *)
| DirectionMustBeOneOf    (* Elevator.direction setter *)
| FloorNotValid           (* Elevator.add_stop *)
| FloorNotAStop           (* Elevator.remove_stop *)
| WouldExceedCapacity     (* Elevator.enter *)
| EnterDoorsClosed        (* Elevator.enter *)
| ExitDoorsClosed.        (* Elevator.exit *)

Inductive exn :=
| ValueError (m : message)
| RuntimeError (m : message)
| KeyError            (* dict lookup of a missing key, set.remove of a missing element *)
| IndexError          (* sequence index out of range *)
| AttributeError      (* method call on None *)
| UnboundLocalError.  (* loop variable read after a loop that never ran *)

Inductive result (A : Type) :=
| Ok (a : A)
| Raise (e : exn).
Arguments Ok {A} a.
Arguments Raise {A} e.

Definition bind {A B} (r : result A) (k : A -> result B) : result B :=
  match r with
  | Ok a => k a
  | Raise e => Raise e
  end.

Notation "'let!' x ':=' r 'in' k" := (bind r (fun x => k))
  (at level 10, x name, r at level 100, k at level 200, only parsing).

Definition is_raise {A} (r : result A) : Prop :=
  match r with Ok _ => False | Raise _ => True end.

Fixpoint traverse {A B} (f : A -> result B) (l : list A) : result (list B) :=
  match l with
  | [] => Ok []
  | x :: l' => let! y := f x in let! ys := traverse f l' in Ok (y :: ys)
  end.

(** Python truthiness of a direction value ([None] and [0] are falsy). *)
Definition falsy (d : option Z) : bool :=
  match d with
  | None => true
  | Some z => bool_decide (z = 0)
  end.

(** Python sequence indexing [l[i]]: a negative index counts from the end, an
    index out of range raises [IndexError]. *)
Definition py_index {A} (l : list A) (i : Z) : result A :=
  let n := Z.of_nat (length l) in
  let j := if bool_decide (i < 0) then i + n else i in
  if bool_decide (0 <= j) then
    match l !! Z.to_nat j with
    | Some x => Ok x
    | None => Raise IndexError
    end
  else Raise IndexError.

(** ** Floors *)

(** Modelled from the spec: the [Floor] class that [elevator.py] imports from
    [elevator_simulation.models], with its [distance] and [direction] methods
    and its comparison, is not among the sources (the [Floor] of [building.py]
    only has [level]).  The specification gives: floors are compared by level,
    [distance(other)] is the absolute level difference and [direction(other)]
    the sign of [other.level - level].  A floor object is truthy. *)
Record Floor := mkFloor { level : Z }.

#[global] Instance Floor_eq_dec : EqDecision Floor.
Proof. solve_decision. Defined.

#[global] Instance Floor_countable : Countable Floor :=
  inj_countable' level mkFloor (fun f => match f with mkFloor _ => eq_refl end).

Definition floor_distance (a b : Floor) : Z := Z.abs (level a - level b).
Definition floor_direction (a b : Floor) : Z := Z.sgn (level b - level a).

(** [Building]: the list [__floors] holds floor objects, known here by their
    identity, and [floor_levels] holds the [_level] of the floor objects that
    were given one.  A floor object may be in the list more than once. *)
Record Building := mkBuilding {
  floor_levels : gmap nat Z;
  floor_objects : list nat
}.

(** [Building.__init__] *)
Definition new_building : Building := mkBuilding ∅ [].

(** [Building.add_floor]: the caller's floor object is appended to the list
    and its level is overwritten, in place, with the new length of the
    list. *)
Definition add_floor (floor : nat) (b : Building) : Building :=
  let objects := floor_objects b ++ [floor] in
  mkBuilding (<[floor := Z.of_nat (length objects)]> (floor_levels b)) objects.

(** The [floors] property: the floor objects of the list, each read with the
    level it has now. *)
Definition building_floors (b : Building) : list Floor :=
  omap (fun floor => mkFloor <$> floor_levels b !! floor) (floor_objects b).

(** [add_floor] called for each floor object of [floors] in turn. *)
Definition add_floors (floors : list nat) (b : Building) : Building :=
  foldl (fun b floor => add_floor floor b) b floors.

(** ** People *)

(** A person is known by its [person_id]; sets of people are sets of ids. *)
Definition Person := nat.

(** ** Elevator *)

Record Elevator := mkElevator {
  valid_floors : list Floor;
  stops : gset Floor;
  capacity : Z;
  direction : option Z;
  passengers : gset Person;
  doors_open : bool;
  location : Floor
}.

Definition set_stops (s : gset Floor) (e : Elevator) : Elevator :=
  mkElevator (valid_floors e) s (capacity e) (direction e) (passengers e)
             (doors_open e) (location e).
Definition set_direction_field (d : option Z) (e : Elevator) : Elevator :=
  mkElevator (valid_floors e) (stops e) (capacity e) d (passengers e)
             (doors_open e) (location e).
Definition set_passengers (p : gset Person) (e : Elevator) : Elevator :=
  mkElevator (valid_floors e) (stops e) (capacity e) (direction e) p
             (doors_open e) (location e).
Definition set_doors_open (b : bool) (e : Elevator) : Elevator :=
  mkElevator (valid_floors e) (stops e) (capacity e) (direction e) (passengers e)
             b (location e).
Definition set_location_field (f : Floor) (e : Elevator) : Elevator :=
  mkElevator (valid_floors e) (stops e) (capacity e) (direction e) (passengers e)
             (doors_open e) f.

(** [Elevator.__init__]: no stops, direction [None], nobody aboard, doors
    closed.  The default of the starting location, [floors[0]], is evaluated
    whether or not a starting location is given. *)
Definition new_elevator (floors : list Floor) (cap : Z)
    (starting_location : option Floor) : result Elevator :=
  let! first := py_index floors 0 in
  Ok (mkElevator floors ∅ cap None ∅ false (default first starting_location)).

Definition full (e : Elevator) : bool :=
  bool_decide (Z.of_nat (size (passengers e)) >= capacity e).

Definition open_doors (e : Elevator) : result unit * Elevator :=
  (Ok tt, set_doors_open true e).

Definition close_doors (e : Elevator) : result unit * Elevator :=
  (Ok tt, set_doors_open false e).

Definition enter (person : Person) (e : Elevator) : result unit * Elevator :=
  if doors_open e then
    if full e then (Raise (RuntimeError WouldExceedCapacity), e)
    else (Ok tt, set_passengers ({[person]} ∪ passengers e) e)
  else (Raise (RuntimeError EnterDoorsClosed), e).

(** [set.remove] raises [KeyError] when the element is missing. *)
Definition exit (person : Person) (e : Elevator) : result unit * Elevator :=
  if doors_open e then
    if bool_decide (person ∈ passengers e)
    then (Ok tt, set_passengers (passengers e ∖ {[person]}) e)
    else (Raise KeyError, e)
  else (Raise (RuntimeError ExitDoorsClosed), e).

Definition distance (e : Elevator) (floor : Floor) : Z :=
  floor_distance (location e) floor.

(** The [direction] setter accepts [1], [-1], [0] and [None]. *)
Definition set_direction (value : option Z) (e : Elevator) : result unit * Elevator :=
  if bool_decide (value ∈ [Some 1; Some (-1); Some 0; None])
  then (Ok tt, set_direction_field value e)
  else (Raise (ValueError DirectionMustBeOneOf), e).

(** The [location] setter; its [isinstance] test holds for every [Floor]. *)
Definition set_location (floor : Floor) (e : Elevator) : result unit * Elevator :=
  (Ok tt, set_location_field floor e).

(** In the branches where the direction is truthy it is an integer ([None] is
    falsy), which [dir_value] reads. *)
Definition dir_value (d : option Z) : Z := default 0 d.

Definition next_location (e : Elevator) : result Floor :=
  if falsy (direction e) then Ok (location e)
  else
    let next_level := level (location e) + dir_value (direction e) in
    let next_level :=
      Z.min (Z.max 1 next_level) (Z.of_nat (length (valid_floors e))) in
    py_index (valid_floors e) (next_level - 1).

Definition moving_away (e : Elevator) (floor : Floor) : result bool :=
  let! nl := next_location e in
  Ok (bool_decide (floor_distance nl floor > floor_distance (location e) floor)).

(** [list(self.stops)[0]]: the first stop in the set's iteration order, for
    which the canonical order of [elements] stands. *)
Definition first_stop (e : Elevator) : result Floor :=
  py_index (elements (stops e)) 0.

Definition next_direction (e : Elevator) : result Z :=
  let! lowest := py_index (valid_floors e) 0 in
  if bool_decide (location e = lowest) then Ok 1
  else
    let! highest := py_index (valid_floors e) (-1) in
    if bool_decide (location e = highest) then Ok (-1)
    else if falsy (direction e) then
      if bool_decide (stops e = ∅) || bool_decide (location e ∈ stops e)
      then Ok 0
      else
        let! f := first_stop e in
        Ok (if bool_decide (distance e f > 0) then 1 else -1)
    else
      let! away := traverse (moving_away e) (elements (stops e)) in
      let moving_towards_stop := negb (forallb id away) in
      if moving_towards_stop then Ok (dir_value (direction e))
      else Ok (-1 * dir_value (direction e)).

Definition add_stop (floor : Floor) (e : Elevator) : result unit * Elevator :=
  if bool_decide (floor ∈ valid_floors e)
  then (Ok tt, set_stops ({[floor]} ∪ stops e) e)
  else (Raise (ValueError FloorNotValid), e).

Definition remove_stop (floor : Floor) (e : Elevator) : result unit * Elevator :=
  if bool_decide (floor ∈ stops e)
  then (Ok tt, set_stops (stops e ∖ {[floor]}) e)
  else (Raise (ValueError FloorNotAStop), e).

(** ** Dispatch strategy *)

(** The body of the loop of [nearest_elevator_dispatch_strategy] up to the
    assignment of [suitability]. *)
Definition suitability (floor_list : list Floor) (floor : Floor)
    (dirn : option Z) (elevator : Elevator) : result Z :=
  let dist := distance elevator floor in
  let! away := moving_away elevator floor in
  if away && negb (bool_decide (dist = 0)) then Ok 1
  else if bool_decide (direction elevator = dirn) || falsy (direction elevator)
  then Ok (Z.of_nat (length floor_list) + 2 - dist)
  else Ok (Z.of_nat (length floor_list) + 1 - dist).

(** The loop itself; [best] is the pair held in the variable [result] of the
    source, an elevator being given with its position in [elevator_list]. *)
Fixpoint dispatch_loop (floor_list : list Floor) (floor : Floor)
    (dirn : option Z) (elevator_list : list (nat * Elevator))
    (best : option (nat * Elevator) * Z) : result (option (nat * Elevator) * Z) :=
  match elevator_list with
  | [] => Ok best
  | (i, elevator) :: rest =>
      let! s := suitability floor_list floor dirn elevator in
      let best_suitability := snd best in
      dispatch_loop floor_list floor dirn rest
        (if bool_decide (s > best_suitability) then (Some (i, elevator), s)
         else best)
  end.

Definition nearest_elevator_dispatch_strategy (elevator_list : list Elevator)
    (floor_list : list Floor) (floor : Floor) (dirn : option Z)
    : result (option (nat * Elevator)) :=
  let! best := dispatch_loop floor_list floor dirn
                 (imap pair elevator_list) (None, -1) in
  Ok (fst best).

(** ** ElevatorBank *)

(** [elevators] lists the bank's elevator set in its iteration order (the
    order of the tuple that the [elevators] property builds). *)
Record ElevatorBank := mkBank {
  floors : list Floor;
  elevators : list Elevator;
  wait_list_up : gmap Floor (gset Person);
  wait_list_down : gmap Floor (gset Person)
}.

Definition set_elevators (es : list Elevator) (b : ElevatorBank) : ElevatorBank :=
  mkBank (floors b) es (wait_list_up b) (wait_list_down b).

(** [ElevatorBank.__init__]: for each direction a dictionary with an empty
    set per floor. *)
Definition empty_wait_list (fl : list Floor) : gmap Floor (gset Person) :=
  list_to_map ((fun f => (f, ∅)) <$> fl).

Definition new_bank (fl : list Floor) : ElevatorBank :=
  mkBank fl [] (empty_wait_list fl) (empty_wait_list fl).

(** The two dictionaries, named by the sign that selects them. *)
Inductive side := Up | Down.

#[global] Instance side_eq_dec : EqDecision side.
Proof. solve_decision. Defined.

Definition wait_list (sd : side) (b : ElevatorBank) : gmap Floor (gset Person) :=
  match sd with Up => wait_list_up b | Down => wait_list_down b end.

Definition set_wait_list (sd : side) (m : gmap Floor (gset Person))
    (b : ElevatorBank) : ElevatorBank :=
  match sd with
  | Up => mkBank (floors b) (elevators b) m (wait_list_down b)
  | Down => mkBank (floors b) (elevators b) (wait_list_up b) m
  end.

Definition dict_get (m : gmap Floor (gset Person)) (floor : Floor)
    : result (gset Person) :=
  match m !! floor with
  | Some s => Ok s
  | None => Raise KeyError
  end.

(** [ElevatorBank.__wait_set]: the set object it returns is mutated in place
    by the callers, so the model also returns where the set lives. *)
Definition wait_set (floor : Floor) (dirn : option Z) (b : ElevatorBank)
    : result (side * gset Person) :=
  if falsy dirn then Raise (ValueError NotAValidDirection)
  else if bool_decide (dir_value dirn > 0) then
    let! s := dict_get (wait_list_up b) floor in Ok (Up, s)
  else if bool_decide (dir_value dirn < 0) then
    let! s := dict_get (wait_list_down b) floor in Ok (Down, s)
  else Raise (ValueError NotAValidDirection).

Definition wait (person : Person) (floor : Floor) (dirn : option Z)
    (b : ElevatorBank) : result unit * ElevatorBank :=
  match wait_set floor dirn b with
  | Ok (sd, s) =>
      (Ok tt, set_wait_list sd (<[floor := {[person]} ∪ s]> (wait_list sd b)) b)
  | Raise e => (Raise e, b)
  end.

Definition stop_waiting (person : Person) (floor : Floor) (dirn : option Z)
    (b : ElevatorBank) : result unit * ElevatorBank :=
  match wait_set floor dirn b with
  | Ok (sd, s) =>
      if bool_decide (person ∈ s)
      then (Ok tt, set_wait_list sd (<[floor := s ∖ {[person]}]> (wait_list sd b)) b)
      else (Raise KeyError, b)
  | Raise e => (Raise e, b)
  end.

Definition waiting_passengers (floor : Floor) (dirn : option Z)
    (b : ElevatorBank) : result (gset Person) :=
  let! r := wait_set floor dirn b in Ok (snd r).

(** [add_elevator]: the new elevator shares the bank's floors.  Its place in
    the iteration order of the set is not fixed by the language; the model
    puts it last. *)
Definition add_elevator (cap : Z) (starting_location : option Floor)
    (b : ElevatorBank) : result nat * ElevatorBank :=
  match new_elevator (floors b) cap starting_location with
  | Ok e => (Ok (length (elevators b)), set_elevators (elevators b ++ [e]) b)
  | Raise x => (Raise x, b)
  end.

(** [call_to] with the default dispatch strategy.  The strategy returns [None]
    when no elevator was selected, and the method call on it then raises
    [AttributeError]. *)
Definition call_to (floor : Floor) (dirn : option Z) (b : ElevatorBank)
    : result nat * ElevatorBank :=
  match nearest_elevator_dispatch_strategy (elevators b) (floors b) floor dirn with
  | Raise x => (Raise x, b)
  | Ok None => (Raise AttributeError, b)
  | Ok (Some (i, elevator)) =>
      match add_stop floor elevator with
      | (Ok _, elevator') => (Ok i, set_elevators (<[i := elevator']> (elevators b)) b)
      | (Raise x, elevator') =>
          (Raise x, set_elevators (<[i := elevator']> (elevators b)) b)
      end
  end.

(** ** Person agent: the call and boarding segment of [Person.run] *)

Definition call_strategy_all (elevator_banks : list ElevatorBank) : list nat :=
  seq 0 (length elevator_banks).

(** [call_strategy_random], the index drawn by [random.randint] being a
    parameter (a position of [elevator_banks]). *)
Definition call_strategy_random (bank_index : nat)
    (elevator_banks : list ElevatorBank) : list nat :=
  [bank_index].

(** The [for agent in elevator_banks] loop of [run]: the person registers with
    each chosen bank and calls an elevator there.  The value returned is the
    loop variable [agent] as the loop leaves it.  The strategies of the source
    only return banks of the simulation; for a position outside its list the
    model answers [IndexError]. *)
Fixpoint call_banks (self : Person) (start : Floor) (dirn : option Z)
    (chosen : list nat) (agent : option nat) (sim : list ElevatorBank)
    : result (option nat) * list ElevatorBank :=
  match chosen with
  | [] => (Ok agent, sim)
  | a :: rest =>
      match sim !! a with
      | None => (Raise IndexError, sim)
      | Some bank =>
          match wait self start dirn bank with
          | (Raise x, bank') => (Raise x, <[a := bank']> sim)
          | (Ok _, bank') =>
              match call_to start dirn bank' with
              | (Raise x, bank'') => (Raise x, <[a := bank'']> sim)
              | (Ok _, bank'') =>
                  call_banks self start dirn rest (Some a) (<[a := bank'']> sim)
              end
          end
      end
  end.

(** The statement after the door-open event: [agent.stop_waiting(...)]. *)
Definition retract_wait (self : Person) (start : Floor) (dirn : option Z)
    (agent : option nat) (sim : list ElevatorBank)
    : result unit * list ElevatorBank :=
  match agent with
  | None => (Raise UnboundLocalError, sim)
  | Some a =>
      match sim !! a with
      | None => (Raise IndexError, sim)
      | Some bank =>
          let '(r, bank') := stop_waiting self start dirn bank in
          (r, <[a := bank']> sim)
      end
  end.

(** One cycle from the call to the retraction, with no other process changing
    the wait sets while the person is suspended.  In the first cycle the
    variable [agent] is unbound before the loop. *)
Definition call_then_retract (self : Person) (start : Floor) (dirn : option Z)
    (chosen : list nat) (sim : list ElevatorBank)
    : result unit * list ElevatorBank :=
  match call_banks self start dirn chosen None sim with
  | (Raise x, sim') => (Raise x, sim')
  | (Ok agent, sim') => retract_wait self start dirn agent sim'
  end.

(** ** Sequences of elevator operations *)

(** The mutating operations of an elevator.  A caller that catches an
    exception still holds the object, so a sequence goes on after a failure. *)
Inductive operation :=
| OpenDoors
| CloseDoors
| Enter (person : Person)
| Exit (person : Person)
| SetDirection (value : option Z)
| SetLocation (floor : Floor)
| AddStop (floor : Floor)
| RemoveStop (floor : Floor).

Definition perform (op : operation) (e : Elevator) : result unit * Elevator :=
  match op with
  | OpenDoors => open_doors e
  | CloseDoors => close_doors e
  | Enter p => enter p e
  | Exit p => exit p e
  | SetDirection v => set_direction v e
  | SetLocation f => set_location f e
  | AddStop f => add_stop f e
  | RemoveStop f => remove_stop f e
  end.

Definition perform_all (ops : list operation) (e : Elevator) : Elevator :=
  foldl (fun e op => snd (perform op e)) e ops.

(** People boarding one after the other, until one is refused. *)
Fixpoint board (people : list Person) (e : Elevator) : result unit * Elevator :=
  match people with
  | [] => (Ok tt, e)
  | p :: rest =>
      match enter p e with
      | (Ok _, e') => board rest e'
      | (Raise x, e') => (Raise x, e')
      end
  end.

(** * Notions used by the properties *)

Definition within_capacity (e : Elevator) : Prop :=
  Z.of_nat (size (passengers e)) <= capacity e.

(** Whether [floor] is classified as moving-away: the predicted next location
    is strictly farther from it than the current one. *)
Definition classified_away (e : Elevator) (nl : Floor) (floor : Floor) : bool :=
  bool_decide (floor_distance nl floor > floor_distance (location e) floor).

(** The keys of both dictionaries are the floors the bank services. *)
Definition wait_lists_ok (b : ElevatorBank) : Prop :=
  forall sd f, is_Some (wait_list sd b !! f) <-> f ∈ floors b.

Definition side_of (z : Z) : side := if bool_decide (z > 0) then Up else Down.

#[global] Instance message_eq_dec : EqDecision message.
Proof. solve_decision. Defined.
#[global] Instance exn_eq_dec : EqDecision exn.
Proof. solve_decision. Defined.
#[global] Instance result_eq_dec {A} `{EqDecision A} : EqDecision (result A).
Proof. solve_decision. Defined.

(** The suitability of an elevator in the words of the specification, [F]
    being the number of floors the bank services. *)
Definition spec_suitability (F : Z) (floor : Floor) (dirn : option Z)
    (e : Elevator) : Z :=
  if decide (moving_away e floor = Ok true /\ distance e floor <> 0) then 1
  else if decide (direction e = dirn \/ falsy (direction e) = true)
       then F + 2 - distance e floor
       else F + 1 - distance e floor.

(** [i] is the first position of [es] whose score is maximal, and [e] the
    elevator there: nothing scores more, and everything before it scores less. *)
Definition first_best (score : Elevator -> Z) (es : list Elevator) (i : nat)
    (e : Elevator) : Prop :=
  es !! i = Some e /\
  (forall j e', es !! j = Some e' -> score e' <= score e) /\
  (forall j e', (j < i)%nat -> es !! j = Some e' -> score e' < score e).

(** The state in which a bank is kept by its own operations: its floors carry
    levels from 1 to their number (as [Building.add_floor] assigns them), and
    every elevator was created over the bank's floors and stands on one. *)
Record bank_ok (b : ElevatorBank) : Prop := {
  levels_within :
    forall f, f ∈ floors b -> 1 <= level f <= Z.of_nat (length (floors b));
  shares_floors : forall e, e ∈ elevators b -> valid_floors e = floors b;
  stands_on_floor : forall e, e ∈ elevators b -> location e ∈ floors b
}.

Ltac each_member H :=
  repeat (apply elem_of_cons in H as [->|H]); [..|now apply elem_of_nil in H].

(** Whether the bank still lists the person in the wait set of the floor and
    direction. *)
Definition still_waiting (self : Person) (start : Floor) (dirn : option Z)
    (b : ElevatorBank) : bool :=
  match waiting_passengers start dirn b with
  | Ok s => bool_decide (self ∈ s)
  | Raise _ => false
  end.

(** The bank at position [a] of the simulation lists the person. *)
Definition listed_at (self : Person) (start : Floor) (dirn : option Z) (a : nat)
    (sim : list ElevatorBank) : Prop :=
  exists b, sim !! a = Some b /\ still_waiting self start dirn b = true.

(** The floors of a building to which [n] floor objects, all different, were
    added. *)
Definition building (n : nat) : list Floor :=
  building_floors (add_floors (seq 0 n) new_building).

(** The values the [direction] setter accepts, which are also the only ones
    an elevator's direction ever holds. *)
Definition direction_ok (d : option Z) : Prop :=
  d ∈ [Some 1; Some (-1); Some 0; None].

(** The stops of the elevator are among its valid floors. *)
Definition stops_valid (e : Elevator) : Prop :=
  forall f, f ∈ stops e -> f ∈ valid_floors e.

(** The mutating operations of a bank; as for an elevator, a sequence goes on
    after an operation that raised. *)
Inductive bank_operation :=
| Wait (person : Person) (floor : Floor) (dirn : option Z)
| StopWaiting (person : Person) (floor : Floor) (dirn : option Z)
| CallTo (floor : Floor) (dirn : option Z)
| AddElevator (cap : Z) (starting_location : option Floor).

Definition bank_perform (op : bank_operation) (b : ElevatorBank) : ElevatorBank :=
  match op with
  | Wait p f d => snd (wait p f d b)
  | StopWaiting p f d => snd (stop_waiting p f d b)
  | CallTo f d => snd (call_to f d b)
  | AddElevator cap start => snd (add_elevator cap start b)
  end.

Definition bank_perform_all (ops : list bank_operation) (b : ElevatorBank)
    : ElevatorBank :=
  foldl (fun b op => bank_perform op b) b ops.

(** An elevator that is given a starting location is given one of the floors
    [fl]. *)
Definition starts_on (fl : list Floor) (op : bank_operation) : Prop :=
  match op with
  | AddElevator _ (Some f) => f ∈ fl
  | _ => True
  end.

(** * Elevators and banks of the examples *)

Definition closed_elevator : Elevator :=
  mkElevator [mkFloor 1; mkFloor 2; mkFloor 3] ∅ 10 None {[4%nat]} false (mkFloor 1).

Definition open_lift : Elevator :=
  mkElevator [mkFloor 1; mkFloor 2; mkFloor 3] ∅ 2 None ∅ true (mkFloor 1).

Definition three_floors : list Floor := [mkFloor 1; mkFloor 2; mkFloor 3].

Definition lift_at (floor : Floor) (d : option Z) (s : gset Floor) : Elevator :=
  mkElevator three_floors s 10 d ∅ false floor.

(** An elevator whose only floor is both its lowest and its highest. *)
Definition lone_floor_lift : Elevator :=
  mkElevator [mkFloor 1] ∅ 10 None ∅ false (mkFloor 1).

Definition five_floors : list Floor :=
  [mkFloor 1; mkFloor 2; mkFloor 3; mkFloor 4; mkFloor 5].

(** Going up from floor 3 of 5 with stops at 2 and 4. *)
Definition rising_lift : Elevator :=
  mkElevator five_floors {[mkFloor 2; mkFloor 4]} 10 (Some 1) ∅ false (mkFloor 3).

(** Going up from floor 3 of 5 with a single stop at 2, now behind. *)
Definition overshooting_lift : Elevator :=
  mkElevator five_floors {[mkFloor 2]} 10 (Some 1) ∅ false (mkFloor 3).

(** An idle elevator on floor 2 of 3 whose only stop is floor 1, below it. *)
Definition idle_lift_stop_below : Elevator :=
  lift_at (mkFloor 2) None {[mkFloor 1]}.

(** Two idle elevators on floor 1 of a three-floor bank. *)
Definition twin_bank : ElevatorBank :=
  mkBank three_floors
         [lift_at (mkFloor 1) None ∅; lift_at (mkFloor 1) (Some 0) ∅]
         (empty_wait_list three_floors) (empty_wait_list three_floors).

(** The dispatch example of the specification over five floors: an elevator
    a single floor away that moves away from the call, and then one two floors
    away that travels in the requested direction. *)
Definition example_bank : ElevatorBank :=
  mkBank five_floors
         [mkElevator five_floors ∅ 10 (Some 1) ∅ false (mkFloor 4);
          mkElevator five_floors ∅ 10 (Some 1) ∅ false (mkFloor 1)]
         (empty_wait_list five_floors) (empty_wait_list five_floors).

Definition one_lift_bank : ElevatorBank :=
  mkBank three_floors [lift_at (mkFloor 1) None ∅]
         (empty_wait_list three_floors) (empty_wait_list three_floors).

(** A simulation with two banks, both of which the person calls. *)
Definition two_banks : list ElevatorBank := [one_lift_bank; one_lift_bank].

(** An elevator on floor 1 of a one-floor list, called from level 9. *)
Definition far_call_lifts : list Elevator :=
  [mkElevator [mkFloor 1] ∅ 10 None ∅ false (mkFloor 1)].

(** A bank over two floors of levels 1 and 9, with one idle elevator on the
    lower one. *)
Definition sparse_bank : ElevatorBank :=
  mkBank [mkFloor 1; mkFloor 9]
         [mkElevator [mkFloor 1; mkFloor 9] ∅ 10 None ∅ false (mkFloor 1)]
         (empty_wait_list [mkFloor 1; mkFloor 9])
         (empty_wait_list [mkFloor 1; mkFloor 9]).

(** * Properties *)

(** ** Boarding and alighting *)

Section Doors.
Variable e : Elevator.
Variable person : Person.

Lemma enter_closed :
  doors_open e = false -> enter person e = (Raise (RuntimeError EnterDoorsClosed), e).
Proof. intros H. unfold enter. now rewrite H. Qed.

Lemma exit_closed :
  doors_open e = false -> exit person e = (Raise (RuntimeError ExitDoorsClosed), e).
Proof. intros H. unfold exit. now rewrite H. Qed.

Lemma exit_absent :
  doors_open e = true -> person ∉ passengers e -> exit person e = (Raise KeyError, e).
Proof.
  intros H Hn. unfold exit. rewrite H.
  now rewrite bool_decide_eq_false_2.
Qed.

Lemma enter_full :
  doors_open e = true -> full e = true ->
  enter person e = (Raise (RuntimeError WouldExceedCapacity), e).
Proof. intros H Hf. unfold enter. now rewrite H, Hf. Qed.

Lemma enter_room :
  doors_open e = true -> full e = false ->
  enter person e = (Ok tt, set_passengers ({[person]} ∪ passengers e) e).
Proof. intros H Hf. unfold enter. now rewrite H, Hf. Qed.
End Doors.

(** C9. With the doors closed, [enter] and [exit] both raise the closed-doors
    error for every person; with the doors open, [exit] raises for a person
    who is not aboard.  In each case the elevator, and so its passenger set,
    is left as it was. *)
Theorem closed_doors_and_absent_passenger_refused (e : Elevator) (person : Person) :
  (doors_open e = false ->
     enter person e = (Raise (RuntimeError EnterDoorsClosed), e) /\
     exit person e = (Raise (RuntimeError ExitDoorsClosed), e)) /\
  (doors_open e = true -> person ∉ passengers e ->
     exit person e = (Raise KeyError, e)).
Proof.
  split.
  - intros H. split; [now apply enter_closed | now apply exit_closed].
  - apply exit_absent.
Qed.

Lemma closed_doors_and_absent_passenger_refused_witness :
  (enter 5%nat closed_elevator = (Raise (RuntimeError EnterDoorsClosed), closed_elevator) /\
   exit 4%nat closed_elevator = (Raise (RuntimeError ExitDoorsClosed), closed_elevator)) /\
  exit 5%nat (set_doors_open true closed_elevator)
    = (Raise KeyError, set_doors_open true closed_elevator).
Proof.
  split.
  - split.
    + apply (closed_doors_and_absent_passenger_refused closed_elevator 5%nat). reflexivity.
    + apply (closed_doors_and_absent_passenger_refused closed_elevator 4%nat). reflexivity.
  - apply (closed_doors_and_absent_passenger_refused (set_doors_open true closed_elevator) 5%nat).
    + reflexivity.
    + simpl. set_solver.
Defined.

(** ** Capacity *)

Lemma full_true (e : Elevator) :
  full e = true <-> Z.of_nat (size (passengers e)) >= capacity e.
Proof. unfold full. apply bool_decide_eq_true. Qed.

Lemma full_false (e : Elevator) :
  full e = false <-> Z.of_nat (size (passengers e)) < capacity e.
Proof. unfold full. rewrite bool_decide_eq_false. lia. Qed.

Lemma size_add_person (person : Person) (s : gset Person) :
  (size ({[person]} ∪ s) <= S (size s))%nat.
Proof.
  rewrite size_union_alt, size_singleton.
  assert (Hsub : s ∖ {[person]} ⊆ s) by set_solver.
  apply subseteq_size in Hsub. lia.
Qed.

Lemma size_add_new_person (person : Person) (s : gset Person) :
  person ∉ s -> size ({[person]} ∪ s) = S (size s).
Proof.
  intros Hn. rewrite size_union by set_solver. now rewrite size_singleton.
Qed.

Lemma perform_capacity (op : operation) (e : Elevator) :
  capacity (snd (perform op e)) = capacity e.
Proof.
  destruct op; simpl; try reflexivity.
  - unfold enter. destruct (doors_open e), (full e); reflexivity.
  - unfold exit. destruct (doors_open e); [case_bool_decide|]; reflexivity.
  - unfold set_direction. case_bool_decide; reflexivity.
  - unfold add_stop. case_bool_decide; reflexivity.
  - unfold remove_stop. case_bool_decide; reflexivity.
Qed.

Lemma perform_within_capacity (op : operation) (e : Elevator) :
  within_capacity e -> within_capacity (snd (perform op e)).
Proof.
  unfold within_capacity. intros H.
  rewrite perform_capacity.
  destruct op; simpl; try exact H.
  - unfold enter. destruct (doors_open e); [|exact H].
    destruct (full e) eqn:Hf; [exact H|]. simpl.
    apply full_false in Hf.
    pose proof (size_add_person person (passengers e)). lia.
  - unfold exit. destruct (doors_open e); [|exact H].
    case_bool_decide; [|exact H]. simpl.
    assert (Hsub : passengers e ∖ {[person]} ⊆ passengers e) by set_solver.
    apply subseteq_size in Hsub. lia.
  - unfold set_direction. case_bool_decide; exact H.
  - unfold add_stop. case_bool_decide; exact H.
  - unfold remove_stop. case_bool_decide; exact H.
Qed.

Lemma perform_all_within_capacity (ops : list operation) (e : Elevator) :
  within_capacity e ->
  within_capacity (perform_all ops e) /\ capacity (perform_all ops e) = capacity e.
Proof.
  revert e. induction ops as [|op ops IH]; intros e H; [now split|].
  change (perform_all (op :: ops) e) with (perform_all ops (snd (perform op e))).
  destruct (IH (snd (perform op e))) as [H1 H2].
  - now apply perform_within_capacity.
  - split; [exact H1|]. now rewrite H2, perform_capacity.
Qed.

(** Boarding distinct people while there is room for all of them. *)
Lemma board_distinct (people : list Person) (e : Elevator) :
  doors_open e = true -> NoDup people ->
  (forall p, p ∈ people -> p ∉ passengers e) ->
  Z.of_nat (size (passengers e)) + Z.of_nat (length people) <= capacity e ->
  board people e
    = (Ok tt, set_passengers (list_to_set people ∪ passengers e) e).
Proof.
  revert e. induction people as [|p people IH]; intros e Ho Hnd Hfresh Hroom.
  - simpl. destruct e; unfold set_passengers; simpl. f_equal. f_equal. set_solver.
  - simpl in *. apply NoDup_cons in Hnd as [Hp Hnd].
    rewrite enter_room; [|exact Ho|apply full_false; lia].
    assert (Hsz : size ({[p]} ∪ passengers e) = S (size (passengers e))).
    { apply size_add_new_person. apply Hfresh. set_solver. }
    rewrite IH; simpl; try assumption.
    + unfold set_passengers. simpl. f_equal. f_equal. set_solver.
    + intros q Hq. specialize (Hfresh q ltac:(set_solver)).
      assert (q <> p) by (intros ->; contradiction). set_solver.
    + rewrite Hsz. lia.
Qed.

(** C6. An elevator of capacity [k] never holds more than [k] passengers,
    whatever operations are performed on it; with the doors open and nobody
    aboard, [k] distinct people board one after the other, and one more boarding
    attempt raises the capacity error and leaves the elevator, and so its
    passenger set, as it was. *)
Theorem capacity_invariant (k : nat) (e : Elevator) (people : list Person) :
  capacity e = Z.of_nat k -> passengers e = ∅ -> doors_open e = true ->
  NoDup people -> length people = k ->
  (forall ops, (size (passengers (perform_all ops e)) <= k)%nat) /\
  exists e',
    board people e = (Ok tt, e') /\
    passengers e' = list_to_set people /\
    size (passengers e') = k /\
    (forall late, enter late e' = (Raise (RuntimeError WouldExceedCapacity), e')) /\
    (forall ops, (size (passengers (perform_all ops e')) <= k)%nat).
Proof.
  intros Hc He Ho Hnd Hlen.
  assert (Hsz0 : size (passengers e) = 0%nat) by now rewrite He, size_empty.
  assert (Hin : forall e0, capacity e0 = Z.of_nat k -> within_capacity e0 ->
            forall ops, (size (passengers (perform_all ops e0)) <= k)%nat).
  { intros e0 Hc0 Hw ops.
    destruct (perform_all_within_capacity ops e0 Hw) as [H1 H2].
    unfold within_capacity in H1. lia. }
  split.
  - apply Hin; [exact Hc|]. unfold within_capacity. lia.
  - exists (set_passengers (list_to_set people ∪ passengers e) e).
    assert (Hps : list_to_set people ∪ passengers e = (list_to_set people : gset Person))
      by (rewrite He; set_solver).
    assert (Hk : size (list_to_set people : gset Person) = k)
      by (rewrite size_list_to_set by exact Hnd; exact Hlen).
    split; [|split; [|split; [|split]]].
    + apply board_distinct; try assumption.
      * intros p _. rewrite He. set_solver.
      * lia.
    + simpl. exact Hps.
    + simpl. now rewrite Hps.
    + intros late. apply enter_full; [exact Ho|].
      apply full_true. simpl. rewrite Hps, Hk. lia.
    + apply Hin; [exact Hc|]. unfold within_capacity. simpl.
      rewrite Hps, Hk. lia.
Qed.

Lemma capacity_invariant_witness :
  (forall ops, (size (passengers (perform_all ops open_lift)) <= 2)%nat) /\
  exists e',
    board [7%nat; 8%nat] open_lift = (Ok tt, e') /\
    passengers e' = list_to_set [7%nat; 8%nat] /\
    size (passengers e') = 2%nat /\
    (forall late, enter late e' = (Raise (RuntimeError WouldExceedCapacity), e')) /\
    (forall ops, (size (passengers (perform_all ops e')) <= 2)%nat).
Proof.
  apply (capacity_invariant 2 open_lift [7%nat; 8%nat]).
  - reflexivity.
  - reflexivity.
  - reflexivity.
  - repeat constructor; set_solver.
  - reflexivity.
Defined.

(** ** Direction policy *)

Lemma py_index_first {A} (l : list A) :
  py_index l 0 = match head l with Some x => Ok x | None => Raise IndexError end.
Proof. unfold py_index. simpl. now rewrite head_lookup. Qed.

Lemma py_index_last {A} (l : list A) :
  py_index l (-1) = match last l with Some x => Ok x | None => Raise IndexError end.
Proof.
  unfold py_index. rewrite (bool_decide_eq_true_2 (-1 < 0)) by lia.
  destruct l as [|a l]; [reflexivity|].
  rewrite bool_decide_eq_true_2 by (simpl length; lia).
  rewrite last_lookup.
  replace (Z.to_nat (-1 + Z.of_nat (length (a :: l)))) with (pred (length (a :: l)))
    by (simpl length; lia).
  reflexivity.
Qed.

Lemma py_index_in_range {A} (l : list A) (i : Z) :
  0 <= i < Z.of_nat (length l) -> exists x, py_index l i = Ok x /\ x ∈ l.
Proof.
  intros Hi. unfold py_index.
  rewrite (bool_decide_eq_false_2 (i < 0)) by lia.
  rewrite (bool_decide_eq_true_2 (0 <= i)) by lia.
  assert (Hlt : (Z.to_nat i < length l)%nat) by lia.
  apply lookup_lt_is_Some_2 in Hlt as [x Hx].
  rewrite Hx. exists x. split; [reflexivity|].
  apply list_elem_of_lookup. eauto.
Qed.

Lemma next_location_defined (e : Elevator) :
  valid_floors e <> [] -> exists nl, next_location e = Ok nl.
Proof.
  intros Hne. unfold next_location.
  destruct (falsy (direction e)); [eauto|].
  assert (0 < Z.of_nat (length (valid_floors e)))
    by (destruct (valid_floors e); [contradiction | simpl length; lia]).
  destruct (py_index_in_range (valid_floors e)
    (Z.min (Z.max 1 (level (location e) + dir_value (direction e)))
           (Z.of_nat (length (valid_floors e))) - 1)) as (x & Hx & _); [lia|].
  eauto.
Qed.

Lemma moving_away_classified (e : Elevator) (nl : Floor) (floor : Floor) :
  next_location e = Ok nl -> moving_away e floor = Ok (classified_away e nl floor).
Proof. intros H. unfold moving_away. now rewrite H. Qed.

Lemma traverse_total {A B} (f : A -> result B) (g : A -> B) (l : list A) :
  (forall x, f x = Ok (g x)) -> traverse f l = Ok (g <$> l).
Proof.
  intros H. induction l as [|x l IH]; [reflexivity|].
  simpl. now rewrite H, IH.
Qed.

Lemma forallb_id_fmap {A} (g : A -> bool) (l : list A) :
  forallb id (g <$> l) = true <-> forall x, x ∈ l -> g x = true.
Proof.
  induction l as [|x l IH]; simpl.
  - split; [|reflexivity]. intros _ y Hy. now apply elem_of_nil in Hy.
  - rewrite andb_true_iff, IH. unfold id. split.
    + intros [Hx Hl] y Hy. apply elem_of_cons in Hy as [->|Hy]; auto.
    + intros H. split; [apply H; left | intros y Hy; apply H; now right].
Qed.

Section Between.
(** An elevator strictly between the first and the last of its floors. *)
Variable e : Elevator.
Variables lowest highest : Floor.
Hypothesis Hlowest : head (valid_floors e) = Some lowest.
Hypothesis Hhighest : last (valid_floors e) = Some highest.
Hypothesis Hnot_lowest : location e <> lowest.
Hypothesis Hnot_highest : location e <> highest.

Lemma valid_floors_nonempty : valid_floors e <> [].
Proof. intros H. rewrite H in Hlowest. discriminate. Qed.

Lemma next_direction_between :
  next_direction e =
    if falsy (direction e) then
      if bool_decide (stops e = ∅) || bool_decide (location e ∈ stops e)
      then Ok 0
      else
        let! f := first_stop e in
        Ok (if bool_decide (distance e f > 0) then 1 else -1)
    else
      let! away := traverse (moving_away e) (elements (stops e)) in
      if negb (forallb id away) then Ok (dir_value (direction e))
      else Ok (-1 * dir_value (direction e)).
Proof.
  unfold next_direction.
  rewrite py_index_first, Hlowest. simpl.
  rewrite bool_decide_eq_false_2 by exact Hnot_lowest.
  rewrite py_index_last, Hhighest. simpl.
  rewrite bool_decide_eq_false_2 by exact Hnot_highest.
  reflexivity.
Qed.

Lemma next_direction_moving (d : Z) (nl : Floor) :
  direction e = Some d -> d <> 0 -> next_location e = Ok nl ->
  next_direction e =
    Ok (if forallb id (classified_away e nl <$> elements (stops e))
        then - d else d).
Proof.
  intros Hd Hnz Hnl. rewrite next_direction_between, Hd. simpl.
  rewrite bool_decide_eq_false_2 by exact Hnz.
  rewrite (traverse_total _ (classified_away e nl))
    by (intros x; now apply moving_away_classified).
  simpl.
  destruct (forallb id _); simpl; f_equal; lia.
Qed.

Lemma next_direction_idle_skips_down :
  falsy (direction e) = true -> stops e <> ∅ -> location e ∉ stops e ->
  next_direction e = Ok 1.
Proof.
  intros Hidle Hstops Hloc. rewrite next_direction_between, Hidle.
  rewrite (bool_decide_eq_false_2 _ Hstops), (bool_decide_eq_false_2 _ Hloc).
  simpl. unfold first_stop. rewrite py_index_first.
  destruct (elements (stops e)) as [|f l] eqn:Hel.
  - apply elements_empty_inv in Hel. apply leibniz_equiv in Hel. contradiction.
  - simpl. rewrite bool_decide_eq_true_2; [reflexivity|].
    assert (Hf : f ∈ stops e) by (apply elem_of_elements; rewrite Hel; left).
    assert (location e <> f) by (intros Heq; rewrite <- Heq in Hf; contradiction).
    unfold distance, floor_distance.
    destruct (location e) as [a], f as [b]. simpl.
    assert (a <> b) by congruence. lia.
Qed.
End Between.

(** C5 (as amended). At the first of its valid floors an elevator's
    [next_direction] is up (+1), and at the last of them, when that is not also
    the first, it is down (-1), whatever its direction and its stops: the two
    tests come before every other rule. *)
Theorem boundary_override (e : Elevator) (lowest highest : Floor) :
  head (valid_floors e) = Some lowest ->
  last (valid_floors e) = Some highest ->
  (location e = lowest -> next_direction e = Ok 1) /\
  (location e = highest -> highest <> lowest -> next_direction e = Ok (-1)).
Proof.
  intros Hlo Hhi. unfold next_direction.
  rewrite py_index_first, Hlo. simpl.
  split.
  - intros Hl. now rewrite bool_decide_eq_true_2.
  - intros Hl Hne. rewrite bool_decide_eq_false_2 by congruence.
    rewrite py_index_last, Hhi. simpl.
    now rewrite bool_decide_eq_true_2.
Qed.

Lemma boundary_override_witness :
  next_direction (lift_at (mkFloor 1) (Some (-1)) {[mkFloor 2]}) = Ok 1 /\
  next_direction (lift_at (mkFloor 3) (Some 1) {[mkFloor 3]}) = Ok (-1).
Proof.
  split.
  - apply (boundary_override (lift_at (mkFloor 1) (Some (-1)) {[mkFloor 2]})
             (mkFloor 1) (mkFloor 3)); reflexivity.
  - apply (boundary_override (lift_at (mkFloor 3) (Some 1) {[mkFloor 3]})
             (mkFloor 1) (mkFloor 3)); [reflexivity | reflexivity | reflexivity |].
    intros H. discriminate H.
Defined.

(** C5 as stated fails: on the highest valid floor of a one-floor elevator
    [next_direction] is up, not down. *)
Lemma highest_of_one_floor_goes_up :
  last (valid_floors lone_floor_lift) = Some (location lone_floor_lift) /\
  next_direction lone_floor_lift = Ok 1 /\
  next_direction lone_floor_lift <> Ok (-1).
Proof.
  assert (H : next_direction lone_floor_lift = Ok 1) by reflexivity.
  split; [reflexivity|]. split; [exact H|]. rewrite H. discriminate.
Qed.

(** C4. A moving elevator (direction +1 or -1) that is neither on its lowest
    nor on its highest floor keeps its direction when some outstanding stop is
    not classified as moving-away, and reverses it when every outstanding stop
    is; a stop is classified as moving-away when the predicted next location
    is strictly farther from it than the current location. *)
Theorem moving_keeps_or_reverses (e : Elevator) (d : Z) (lowest highest : Floor) :
  direction e = Some d -> d = 1 \/ d = -1 ->
  head (valid_floors e) = Some lowest ->
  last (valid_floors e) = Some highest ->
  location e <> lowest -> location e <> highest ->
  exists nl,
    next_location e = Ok nl /\
    (forall f, moving_away e f
               = Ok (bool_decide (floor_distance nl f > floor_distance (location e) f))) /\
    ((exists f, f ∈ stops e /\ moving_away e f = Ok false) ->
       next_direction e = Ok d) /\
    ((forall f, f ∈ stops e -> moving_away e f = Ok true) ->
       next_direction e = Ok (- d)).
Proof.
  intros Hd Hpm Hlo Hhi Hnl Hnh.
  destruct (next_location_defined e (valid_floors_nonempty e lowest Hlo)) as [nl Hnext].
  assert (Hnz : d <> 0) by lia.
  pose proof (next_direction_moving e lowest highest Hlo Hhi Hnl Hnh d nl Hd Hnz Hnext)
    as Hnd.
  exists nl. split; [exact Hnext|]. split; [|split].
  - intros f. now apply moving_away_classified.
  - intros (f & Hf & Hfalse).
    rewrite (moving_away_classified e nl f Hnext) in Hfalse.
    rewrite Hnd.
    destruct (forallb id (classified_away e nl <$> elements (stops e))) eqn:Hall;
      [|reflexivity].
    rewrite forallb_id_fmap in Hall.
    rewrite (Hall f) in Hfalse by now apply elem_of_elements.
    discriminate.
  - intros Hall. rewrite Hnd.
    replace (forallb id (classified_away e nl <$> elements (stops e))) with true;
      [reflexivity|].
    symmetry. apply forallb_id_fmap. intros f Hf.
    apply elem_of_elements in Hf. specialize (Hall f Hf).
    rewrite (moving_away_classified e nl f Hnext) in Hall. congruence.
Qed.

Lemma moving_keeps_or_reverses_witness :
  next_direction rising_lift = Ok 1 /\
  next_direction overshooting_lift = Ok (- 1).
Proof.
  split.
  - destruct (moving_keeps_or_reverses rising_lift 1 (mkFloor 1) (mkFloor 5))
      as (nl & _ & _ & Hkeep & _).
    + reflexivity.
    + left. reflexivity.
    + reflexivity.
    + reflexivity.
    + intros H. discriminate H.
    + intros H. discriminate H.
    + apply Hkeep. exists (mkFloor 4). split; [|reflexivity].
      unfold rising_lift. simpl. set_solver.
  - destruct (moving_keeps_or_reverses overshooting_lift 1 (mkFloor 1) (mkFloor 5))
      as (nl & _ & _ & _ & Hrev).
    + reflexivity.
    + left. reflexivity.
    + reflexivity.
    + reflexivity.
    + intros H. discriminate H.
    + intros H. discriminate H.
    + apply Hrev. intros f Hf. unfold overshooting_lift in Hf. simpl in Hf.
      apply elem_of_singleton in Hf. subst f. reflexivity.
Defined.

(** C2 (the code at the failing input). The elevator is idle, strictly between
    its lowest and highest floors, and its only stop lies below it; the claim
    asks for down, the code answers up. *)
Theorem idle_with_stop_below_goes_up :
  falsy (direction idle_lift_stop_below) = true /\
  head (valid_floors idle_lift_stop_below) = Some (mkFloor 1) /\
  last (valid_floors idle_lift_stop_below) = Some (mkFloor 3) /\
  location idle_lift_stop_below = mkFloor 2 /\
  elements (stops idle_lift_stop_below) = [mkFloor 1] /\
  level (mkFloor 1) < level (location idle_lift_stop_below) /\
  next_direction idle_lift_stop_below = Ok 1.
Proof. repeat split; vm_compute; reflexivity. Qed.

(** The other two parts of the idle rule, as the code has them. *)
Lemma next_direction_idle_stays (e : Elevator) (lowest highest : Floor) :
  head (valid_floors e) = Some lowest -> last (valid_floors e) = Some highest ->
  location e <> lowest -> location e <> highest ->
  falsy (direction e) = true ->
  stops e = ∅ \/ location e ∈ stops e ->
  next_direction e = Ok 0.
Proof.
  intros Hlo Hhi Hnl Hnh Hidle Hs.
  rewrite (next_direction_between e lowest highest Hlo Hhi Hnl Hnh), Hidle.
  destruct Hs as [Hs|Hs].
  - now rewrite (bool_decide_eq_true_2 _ Hs).
  - rewrite (bool_decide_eq_true_2 _ Hs). now rewrite orb_true_r.
Qed.

(** ** Wait sets of a bank *)

Lemma empty_wait_list_lookup (fl : list Floor) (f : Floor) :
  empty_wait_list fl !! f = if bool_decide (f ∈ fl) then Some ∅ else None.
Proof.
  unfold empty_wait_list. induction fl as [|x fl IH].
  - rewrite fmap_nil, list_to_map_nil, lookup_empty.
    case_bool_decide as Hin; [|reflexivity]. now apply elem_of_nil in Hin.
  - rewrite fmap_cons, list_to_map_cons. cbn [fst snd].
    destruct (decide (x = f)) as [->|Hne].
    + rewrite lookup_insert_eq. rewrite bool_decide_eq_true_2; [reflexivity|]. left.
    + rewrite lookup_insert_ne by exact Hne. rewrite IH.
      case_bool_decide as Hin; case_bool_decide as Hin'; try reflexivity; exfalso.
      * apply Hin'. now right.
      * apply elem_of_cons in Hin' as [->|Hin']; [now apply Hne | now apply Hin].
Qed.

Lemma new_bank_wait_lists_ok (fl : list Floor) : wait_lists_ok (new_bank fl).
Proof.
  intros sd f. destruct sd; simpl; rewrite empty_wait_list_lookup;
    case_bool_decide; split; intros H'; try (now eauto); try contradiction;
    destruct H' as [? H']; discriminate H'.
Qed.

Lemma wait_list_set_wait_list (sd sd' : side) m (b : ElevatorBank) :
  wait_list sd' (set_wait_list sd m b) = if decide (sd' = sd) then m else wait_list sd' b.
Proof. destruct sd, sd'; reflexivity. Qed.

Lemma set_wait_list_id (sd : side) (b : ElevatorBank) :
  set_wait_list sd (wait_list sd b) b = b.
Proof. destruct sd, b; reflexivity. Qed.

Lemma set_wait_list_twice (sd : side) m m' (b : ElevatorBank) :
  set_wait_list sd m' (set_wait_list sd m b) = set_wait_list sd m' b.
Proof. destruct sd; reflexivity. Qed.

Lemma wait_set_falsy (floor : Floor) (dirn : option Z) (b : ElevatorBank) :
  falsy dirn = true -> wait_set floor dirn b = Raise (ValueError NotAValidDirection).
Proof. intros H. unfold wait_set. now rewrite H. Qed.

Lemma wait_set_truthy (floor : Floor) (dirn : option Z) (b : ElevatorBank) :
  falsy dirn = false ->
  wait_set floor dirn b =
    let! s := dict_get (wait_list (side_of (dir_value dirn)) b) floor in
    Ok (side_of (dir_value dirn), s).
Proof.
  intros H. unfold wait_set, side_of. rewrite H.
  destruct dirn as [z|]; [|discriminate]. simpl in *.
  apply bool_decide_eq_false in H.
  case_bool_decide; [reflexivity|].
  rewrite bool_decide_eq_true_2 by lia. reflexivity.
Qed.

Lemma dict_get_serviced (b : ElevatorBank) (sd : side) (floor : Floor) :
  wait_lists_ok b -> floor ∈ floors b ->
  exists s, wait_list sd b !! floor = Some s /\ dict_get (wait_list sd b) floor = Ok s.
Proof.
  intros Hok Hin. destruct (proj2 (Hok sd floor) Hin) as [s Hs].
  exists s. split; [exact Hs|]. unfold dict_get. now rewrite Hs.
Qed.

Lemma dict_get_unserviced (b : ElevatorBank) (sd : side) (floor : Floor) :
  wait_lists_ok b -> floor ∉ floors b ->
  dict_get (wait_list sd b) floor = Raise KeyError.
Proof.
  intros Hok Hin. unfold dict_get.
  destruct (wait_list sd b !! floor) eqn:Hl; [|reflexivity].
  exfalso. apply Hin, (Hok sd). eauto.
Qed.

Lemma wait_preserves_ok person floor dirn (b : ElevatorBank) :
  wait_lists_ok b -> wait_lists_ok (snd (wait person floor dirn b)).
Proof.
  intros Hok. unfold wait.
  destruct (wait_set floor dirn b) as [[sd s]|x] eqn:Hw; [|exact Hok].
  simpl. intros sd' f.
  assert (Hf : is_Some (wait_list sd b !! floor)).
  { destruct (falsy dirn) eqn:Hd.
    - rewrite wait_set_falsy in Hw by exact Hd. discriminate.
    - rewrite wait_set_truthy in Hw by exact Hd. unfold dict_get in Hw.
      destruct (wait_list (side_of (dir_value dirn)) b !! floor) eqn:Hl;
        simpl in Hw; [|discriminate].
      injection Hw as <- <-. eauto. }
  rewrite wait_list_set_wait_list.
  assert (Hfl : floors (set_wait_list sd (<[floor:={[person]} ∪ s]> (wait_list sd b)) b)
                = floors b) by (destruct sd; reflexivity).
  rewrite Hfl. case_decide as Hsd; [subst sd'|apply Hok].
  destruct (decide (floor = f)) as [->|Hne].
  - rewrite lookup_insert_eq. split; [intros _; now apply (Hok sd) | eauto].
  - rewrite lookup_insert_ne by exact Hne. apply Hok.
Qed.

(** ** Waiting *)

(** C10. On a floor the bank does not service, [wait], [stop_waiting] and
    [waiting_passengers] all raise, whatever the person and the direction, and
    leave the bank as it was; when the direction is a valid one the error is
    the [KeyError] of the per-direction dictionary, which has no entry for the
    floor. *)
Theorem unserviced_floor_refused (b : ElevatorBank) (person : Person)
    (floor : Floor) (dirn : option Z) :
  wait_lists_ok b -> floor ∉ floors b ->
  (is_raise (fst (wait person floor dirn b)) /\ snd (wait person floor dirn b) = b) /\
  (is_raise (fst (stop_waiting person floor dirn b)) /\
   snd (stop_waiting person floor dirn b) = b) /\
  is_raise (waiting_passengers floor dirn b) /\
  (falsy dirn = false ->
     wait person floor dirn b = (Raise KeyError, b) /\
     stop_waiting person floor dirn b = (Raise KeyError, b) /\
     waiting_passengers floor dirn b = Raise KeyError).
Proof.
  intros Hok Hin.
  assert (Hw : exists x, wait_set floor dirn b = Raise x /\
                 (falsy dirn = false -> x = KeyError)).
  { destruct (falsy dirn) eqn:Hd.
    - rewrite wait_set_falsy by exact Hd. eexists. split; [reflexivity|discriminate].
    - rewrite wait_set_truthy by exact Hd.
      rewrite dict_get_unserviced by assumption. simpl. eauto. }
  destruct Hw as (x & Hw & Hx).
  unfold wait, stop_waiting, waiting_passengers. rewrite Hw. simpl.
  split; [now split|]. split; [now split|]. split; [exact I|].
  intros Hd. rewrite (Hx Hd). now repeat split.
Qed.

Lemma unserviced_floor_refused_witness :
  wait 3%nat (mkFloor 9) (Some 1) (new_bank three_floors)
    = (Raise KeyError, new_bank three_floors) /\
  stop_waiting 3%nat (mkFloor 9) (Some 1) (new_bank three_floors)
    = (Raise KeyError, new_bank three_floors) /\
  waiting_passengers (mkFloor 9) (Some 1) (new_bank three_floors) = Raise KeyError.
Proof.
  apply (unserviced_floor_refused (new_bank three_floors) 3%nat (mkFloor 9) (Some 1)).
  - apply new_bank_wait_lists_ok.
  - unfold three_floors. simpl. set_solver.
  - reflexivity.
Defined.

(** C7 (as amended). On a serviced floor [wait] raises the invalid-direction
    error exactly when the direction is falsy ([0] or [None]); for every other
    direction it succeeds, a positive one adding the person to the floor's up
    set and a negative one to its down set, and a second [wait] with the same
    arguments leaves the bank, and so the size of the wait set, unchanged. *)
Theorem wait_selects_by_sign (b : ElevatorBank) (person : Person)
    (floor : Floor) (dirn : option Z) :
  wait_lists_ok b -> floor ∈ floors b ->
  (is_raise (fst (wait person floor dirn b)) <-> falsy dirn = true) /\
  (falsy dirn = true ->
     wait person floor dirn b = (Raise (ValueError NotAValidDirection), b)) /\
  (falsy dirn = false ->
     exists s b',
       wait_list (side_of (dir_value dirn)) b !! floor = Some s /\
       wait person floor dirn b = (Ok tt, b') /\
       waiting_passengers floor dirn b' = Ok ({[person]} ∪ s) /\
       wait person floor dirn b' = (Ok tt, b')).
Proof.
  intros Hok Hin.
  assert (Hfalsy : falsy dirn = true ->
            wait person floor dirn b = (Raise (ValueError NotAValidDirection), b)).
  { intros Hd. unfold wait. now rewrite wait_set_falsy. }
  assert (Htruthy : falsy dirn = false ->
     exists s b',
       wait_list (side_of (dir_value dirn)) b !! floor = Some s /\
       wait person floor dirn b = (Ok tt, b') /\
       waiting_passengers floor dirn b' = Ok ({[person]} ∪ s) /\
       wait person floor dirn b' = (Ok tt, b')).
  { intros Hd. set (sd := side_of (dir_value dirn)).
    destruct (dict_get_serviced b sd floor Hok Hin) as (s & Hs & Hget).
    exists s, (set_wait_list sd (<[floor := {[person]} ∪ s]> (wait_list sd b)) b).
    assert (Hget' : dict_get
              (wait_list sd (set_wait_list sd (<[floor := {[person]} ∪ s]> (wait_list sd b)) b))
              floor = Ok ({[person]} ∪ s)).
    { rewrite wait_list_set_wait_list. rewrite decide_True by reflexivity.
      unfold dict_get. now rewrite lookup_insert_eq. }
    split; [exact Hs|]. split; [|split].
    - unfold wait. rewrite wait_set_truthy by exact Hd. fold sd. now rewrite Hget.
    - unfold waiting_passengers. rewrite wait_set_truthy by exact Hd. fold sd.
      now rewrite Hget'.
    - unfold wait. rewrite wait_set_truthy by exact Hd. fold sd. rewrite Hget'.
      simpl. f_equal. rewrite set_wait_list_twice. f_equal.
      rewrite wait_list_set_wait_list. rewrite decide_True by reflexivity.
      rewrite insert_insert_eq. f_equal. set_solver. }
  split; [|split; assumption].
  split.
  - intros Hr. destruct (falsy dirn) eqn:Hd; [reflexivity|].
    destruct (Htruthy eq_refl) as (s & b' & _ & Hw & _).
    rewrite Hw in Hr. contradiction.
  - intros Hd. rewrite (Hfalsy Hd). exact I.
Qed.

Lemma wait_selects_by_sign_witness :
  wait 3%nat (mkFloor 2) (Some 0) (new_bank three_floors)
    = (Raise (ValueError NotAValidDirection), new_bank three_floors) /\
  exists s b',
    wait_list (side_of (dir_value (Some (-1)))) (new_bank three_floors) !! mkFloor 2
      = Some s /\
    wait 3%nat (mkFloor 2) (Some (-1)) (new_bank three_floors) = (Ok tt, b') /\
    waiting_passengers (mkFloor 2) (Some (-1)) b' = Ok ({[3%nat]} ∪ s) /\
    wait 3%nat (mkFloor 2) (Some (-1)) b' = (Ok tt, b').
Proof.
  assert (Hin : mkFloor 2 ∈ floors (new_bank three_floors))
    by (unfold three_floors; simpl; set_solver).
  split.
  - apply (wait_selects_by_sign (new_bank three_floors) 3%nat (mkFloor 2) (Some 0)).
    + apply new_bank_wait_lists_ok.
    + exact Hin.
    + reflexivity.
  - apply (wait_selects_by_sign (new_bank three_floors) 3%nat (mkFloor 2) (Some (-1))).
    + apply new_bank_wait_lists_ok.
    + exact Hin.
    + reflexivity.
Defined.

(** C7 as stated fails: a direction of [2] is neither [+1] nor [-1], yet
    [wait] accepts it and registers the person in the up set. *)
Lemma wait_accepts_direction_two :
  mkFloor 2 ∈ floors (new_bank three_floors) /\
  Some 2 <> Some 1 /\ Some 2 <> Some (-1) /\
  fst (wait 3%nat (mkFloor 2) (Some 2) (new_bank three_floors)) = Ok tt /\
  waiting_passengers (mkFloor 2) (Some 1)
    (snd (wait 3%nat (mkFloor 2) (Some 2) (new_bank three_floors))) = Ok {[3%nat]}.
Proof.
  split; [unfold three_floors; simpl; set_solver|].
  split; [discriminate|]. split; [discriminate|]. split; [reflexivity|].
  vm_compute. reflexivity.
Qed.

(** ** Dispatch *)

Lemma suitability_as_specified (floor_list : list Floor) (floor : Floor)
    (dirn : option Z) (e : Elevator) :
  valid_floors e <> [] ->
  suitability floor_list floor dirn e
    = Ok (spec_suitability (Z.of_nat (length floor_list)) floor dirn e).
Proof.
  intros Hne. destruct (next_location_defined e Hne) as [nl Hnl].
  unfold suitability, spec_suitability.
  rewrite (moving_away_classified e nl floor Hnl). simpl.
  destruct (classified_away e nl floor); simpl.
  - case_bool_decide as Hd; simpl.
    + rewrite decide_False by (intros [_ H']; contradiction).
      destruct (decide (direction e = dirn)) as [Heq|Hneq].
      * rewrite bool_decide_eq_true_2 by exact Heq. simpl.
        now rewrite decide_True by now left.
      * rewrite bool_decide_eq_false_2 by exact Hneq. simpl.
        destruct (falsy (direction e)).
        -- now rewrite decide_True by now right.
        -- rewrite decide_False; [reflexivity|]. intros [?|?]; [contradiction|discriminate].
    + now rewrite decide_True by now split.
  - destruct (decide (direction e = dirn)) as [Heq|Hneq].
    + rewrite bool_decide_eq_true_2 by exact Heq. simpl.
      now rewrite decide_True by now left.
    + rewrite bool_decide_eq_false_2 by exact Hneq. simpl.
      destruct (falsy (direction e)).
      * now rewrite decide_True by now right.
      * rewrite decide_False; [reflexivity|]. intros [?|?]; [contradiction|discriminate].
Qed.

Section Dispatch.
Variable floor_list : list Floor.
Variable floor : Floor.
Variable dirn : option Z.
Variable score : Elevator -> Z.

Lemma first_best_here (x : Elevator) (es : list Elevator) :
  (forall e, e ∈ es -> score e <= score x) -> first_best score (x :: es) 0 x.
Proof.
  intros Hle. split; [reflexivity|]. split.
  - intros [|j] e' Hj; simpl in Hj.
    + injection Hj as <-. lia.
    + apply Hle. apply list_elem_of_lookup. eauto.
  - intros j e' Hj. lia.
Qed.

Lemma first_best_later (x : Elevator) (es : list Elevator) (i : nat) (e : Elevator) :
  score x < score e -> first_best score es i e -> first_best score (x :: es) (S i) e.
Proof.
  intros Hlt (Hi & Hmax & Hbefore). split; [exact Hi|]. split.
  - intros [|j] e' Hj; simpl in Hj.
    + injection Hj as <-. lia.
    + now apply (Hmax j).
  - intros [|j] e' Hji Hj; simpl in Hj.
    + injection Hj as <-. lia.
    + apply (Hbefore j); [lia|exact Hj].
Qed.

Lemma dispatch_loop_invariant (es : list Elevator) :
  forall (h : nat -> nat) (best : option (nat * Elevator)) (bs : Z),
  (forall e, e ∈ es -> suitability floor_list floor dirn e = Ok (score e)) ->
  exists best' bs',
    dispatch_loop floor_list floor dirn (imap (fun i e => (h i, e)) es) (best, bs)
      = Ok (best', bs') /\
    ((best' = best /\ bs' = bs /\ forall e, e ∈ es -> score e <= bs) \/
     (exists i e, best' = Some (h i, e) /\ bs' = score e /\ bs < score e /\
                  first_best score es i e)).
Proof.
  induction es as [|x es IH]; intros h best bs Hsc.
  - exists best, bs. split; [reflexivity|]. left.
    repeat split. intros e He. now apply elem_of_nil in He.
  - rewrite imap_cons. cbn [dispatch_loop].
    rewrite (Hsc x) by left. cbn [bind snd].
    assert (Hsc' : forall e, e ∈ es -> suitability floor_list floor dirn e = Ok (score e))
      by (intros e He; apply Hsc; now right).
    case_bool_decide as Hgt.
    + destruct (IH (h ∘ S) (Some (h 0%nat, x)) (score x) Hsc')
        as (best' & bs' & Hrun & [(-> & -> & Hle) | (i & e & -> & -> & Hlt & Hfb)]).
      * exists (Some (h 0%nat, x)), (score x). split; [exact Hrun|]. right.
        exists 0%nat, x. split; [reflexivity|]. split; [reflexivity|].
        split; [lia|]. now apply first_best_here.
      * exists (Some (h (S i), e)), (score e). split; [exact Hrun|]. right.
        exists (S i), e. split; [reflexivity|]. split; [reflexivity|].
        split; [lia|]. now apply first_best_later.
    + destruct (IH (h ∘ S) best bs Hsc')
        as (best' & bs' & Hrun & [(-> & -> & Hle) | (i & e & -> & -> & Hlt & Hfb)]).
      * exists best, bs. split; [exact Hrun|]. left.
        split; [reflexivity|]. split; [reflexivity|]. intros e He.
        apply elem_of_cons in He as [->|He]; [lia | now apply Hle].
      * exists (Some (h (S i), e)), (score e). split; [exact Hrun|]. right.
        exists (S i), e. split; [reflexivity|]. split; [reflexivity|].
        split; [exact Hlt|]. apply first_best_later; [lia|exact Hfb].
Qed.

Lemma strategy_selects_first_best (es : list Elevator) :
  es <> [] ->
  (forall e, e ∈ es -> suitability floor_list floor dirn e = Ok (score e)) ->
  (forall e, e ∈ es -> -1 < score e) ->
  exists i e,
    nearest_elevator_dispatch_strategy es floor_list floor dirn = Ok (Some (i, e)) /\
    first_best score es i e.
Proof.
  intros Hne Hsc Hpos. unfold nearest_elevator_dispatch_strategy.
  destruct (dispatch_loop_invariant es id None (-1) Hsc)
    as (best' & bs' & Hrun & [(-> & -> & Hle) | (i & e & -> & -> & _ & Hfb)]).
  - exfalso. destruct es as [|x es]; [contradiction|].
    specialize (Hle x ltac:(left)). specialize (Hpos x ltac:(left)). lia.
  - exists i, e. split; [|exact Hfb].
    change (imap pair es) with (imap (fun i e => (id i, e)) es).
    now rewrite Hrun.
Qed.
End Dispatch.

Lemma strategy_without_elevators (floor_list : list Floor) (floor : Floor)
    (dirn : option Z) :
  nearest_elevator_dispatch_strategy [] floor_list floor dirn = Ok None.
Proof. reflexivity. Qed.

(** C8. A bank without elevators does not drop a call silently: [call_to]
    raises (the strategy returns [None], on which [add_stop] is then called),
    no stop is added and the bank is left as it was. *)
Theorem call_to_without_elevators_fails (b : ElevatorBank) (floor : Floor)
    (dirn : option Z) :
  elevators b = [] ->
  call_to floor dirn b = (Raise AttributeError, b).
Proof.
  intros He. unfold call_to. rewrite He.
  now rewrite strategy_without_elevators.
Qed.

Lemma call_to_without_elevators_fails_witness :
  call_to (mkFloor 2) (Some 1) (new_bank three_floors)
    = (Raise AttributeError, new_bank three_floors).
Proof.
  apply (call_to_without_elevators_fails (new_bank three_floors) (mkFloor 2) (Some 1)).
  reflexivity.
Defined.

Lemma spec_suitability_positive (b : ElevatorBank) (floor : Floor)
    (dirn : option Z) (e : Elevator) :
  bank_ok b -> e ∈ elevators b -> floor ∈ floors b ->
  1 <= spec_suitability (Z.of_nat (length (floors b))) floor dirn e.
Proof.
  intros Hok He Hf.
  pose proof (levels_within b Hok floor Hf) as Hlf.
  pose proof (levels_within b Hok (location e) (stands_on_floor b Hok e He)) as Hle.
  unfold spec_suitability, distance, floor_distance.
  repeat case_decide; lia.
Qed.

Lemma call_to_dispatches (b : ElevatorBank) (floor : Floor) (dirn : option Z)
    (i : nat) (e : Elevator) :
  nearest_elevator_dispatch_strategy (elevators b) (floors b) floor dirn
    = Ok (Some (i, e)) ->
  floor ∈ valid_floors e ->
  call_to floor dirn b
    = (Ok i, set_elevators (<[i := set_stops ({[floor]} ∪ stops e) e]> (elevators b)) b).
Proof.
  intros Hs Hin. unfold call_to. rewrite Hs. unfold add_stop.
  now rewrite bool_decide_eq_true_2 by exact Hin.
Qed.

(** C1 (as amended). In a bank with at least one elevator, whose floors have
    levels from 1 to their number [F] and whose elevators share these floors
    and stand on one of them, and for a call floor among these floors, [call_to]
    adds the call floor as a stop on the first elevator, in encounter order,
    whose suitability is maximal: no elevator scores more and every elevator
    before it scores strictly less, so that a later elevator with an equal
    score does not replace it.  The suitability is 1 for an elevator that
    moves away from the floor at a nonzero distance, [F + 2 - distance] for
    one whose direction is the requested one or that is idle, and
    [F + 1 - distance] otherwise, [F] being the number of floors. *)
Theorem call_to_picks_first_most_suitable (b : ElevatorBank) (floor : Floor)
    (dirn : option Z) :
  bank_ok b -> elevators b <> [] -> floor ∈ floors b ->
  exists i e,
    first_best (spec_suitability (Z.of_nat (length (floors b))) floor dirn)
               (elevators b) i e /\
    call_to floor dirn b
      = (Ok i,
         set_elevators (<[i := set_stops ({[floor]} ∪ stops e) e]> (elevators b)) b).
Proof.
  intros Hok Hne Hf.
  assert (Hfl : floors b <> []) by (intros H; rewrite H in Hf; now apply elem_of_nil in Hf).
  destruct (strategy_selects_first_best (floors b) floor dirn
              (spec_suitability (Z.of_nat (length (floors b))) floor dirn)
              (elevators b) Hne) as (i & e & Hs & Hfb).
  - intros e He. apply suitability_as_specified.
    now rewrite (shares_floors b Hok e He).
  - intros e He. pose proof (spec_suitability_positive b floor dirn e Hok He Hf). lia.
  - exists i, e. split; [exact Hfb|].
    apply call_to_dispatches; [exact Hs|].
    destruct Hfb as (Hi & _).
    rewrite (shares_floors b Hok e); [exact Hf|].
    apply list_elem_of_lookup. eauto.
Qed.

Lemma twin_bank_ok : bank_ok twin_bank.
Proof.
  split.
  - intros f Hf. unfold twin_bank, three_floors in Hf. simpl in Hf.
    each_member Hf; simpl; lia.
  - intros e He. unfold twin_bank in He. simpl in He. each_member He; reflexivity.
  - intros e He. unfold twin_bank in He. simpl in He.
    each_member He; simpl; unfold three_floors; left.
Qed.

Lemma call_to_picks_first_most_suitable_witness :
  exists i e,
    first_best (spec_suitability (Z.of_nat (length (floors twin_bank))) (mkFloor 2) (Some 1))
               (elevators twin_bank) i e /\
    call_to (mkFloor 2) (Some 1) twin_bank
      = (Ok i,
         set_elevators
           (<[i := set_stops ({[mkFloor 2]} ∪ stops e) e]> (elevators twin_bank))
           twin_bank).
Proof.
  apply (call_to_picks_first_most_suitable twin_bank (mkFloor 2) (Some 1)).
  - exact twin_bank_ok.
  - discriminate.
  - unfold twin_bank, three_floors. simpl. set_solver.
Defined.

(** C1 as stated fails.  In [sparse_bank] the call floor 9 is serviced, yet the
    only elevator, 8 levels away, scores [2 + 2 - 8 = -4], which does not
    exceed the initial [-1]: nothing is selected and [call_to] raises.  In
    [twin_bank] a call to level 4, which the bank does not service, selects the
    first elevator, whose [add_stop] then raises.  In both cases no stop is
    added. *)
Lemma call_to_may_add_no_stop :
  (elevators sparse_bank <> [] /\ (mkFloor 9 ∈ floors sparse_bank) /\
   suitability (floors sparse_bank) (mkFloor 9) (Some 1) <$> elevators sparse_bank
     = [Ok (-4)] /\
   call_to (mkFloor 9) (Some 1) sparse_bank = (Raise AttributeError, sparse_bank)) /\
  (elevators twin_bank <> [] /\
   call_to (mkFloor 4) (Some 1) twin_bank = (Raise (ValueError FloorNotValid), twin_bank)).
Proof.
  split.
  - split; [discriminate|]. split; [unfold sparse_bank; simpl; set_solver|].
    split; vm_compute; reflexivity.
  - split; [discriminate|]. vm_compute. reflexivity.
Qed.

(** The two elevators of [twin_bank] score the same; the first one is kept. *)
Lemma twin_bank_keeps_the_first :
  fst (call_to (mkFloor 2) (Some 1) twin_bank) = Ok 0%nat.
Proof. vm_compute. reflexivity. Qed.

(** The second elevator of [example_bank] (suitability 5) is preferred to the
    first (suitability 1). *)
Lemma example_bank_dispatch :
  (suitability five_floors (mkFloor 3) (Some 1)) <$> elevators example_bank
    = [Ok 1; Ok 5] /\
  fst (call_to (mkFloor 3) (Some 1) example_bank) = Ok 1%nat.
Proof. split; vm_compute; reflexivity. Qed.

(** ** Retracting the wait after boarding *)

(** C3 (the code at the failing input). Person 7 on floor 1 calls both banks of
    [two_banks] to go up.  Both calls succeed, and after the retraction that
    follows the door-open event the person is gone from the wait set of the
    last bank only: the first bank still lists the person. *)
Theorem person_left_waiting_in_first_bank :
  call_strategy_all two_banks = [0%nat; 1%nat] /\
  fst (call_then_retract 7%nat (mkFloor 1) (Some 1) (call_strategy_all two_banks) two_banks)
    = Ok tt /\
  still_waiting 7%nat (mkFloor 1) (Some 1)
    <$> snd (call_then_retract 7%nat (mkFloor 1) (Some 1)
               (call_strategy_all two_banks) two_banks)
    = [true; false].
Proof. repeat split; vm_compute; reflexivity. Qed.

(** With a single bank chosen, as [call_strategy_random] does, the retraction
    is complete. *)
Lemma person_retracted_from_single_bank :
  still_waiting 7%nat (mkFloor 1) (Some 1)
    <$> snd (call_then_retract 7%nat (mkFloor 1) (Some 1)
               (call_strategy_random 1 two_banks) two_banks)
    = [false; false].
Proof. vm_compute. reflexivity. Qed.

(** ** The bank's operations keep its state *)

Lemma add_floors_objects (floors : list nat) :
  forall b, floor_objects (add_floors floors b) = floor_objects b ++ floors.
Proof.
  induction floors as [|x floors IH]; intros b.
  - simpl. now rewrite app_nil_r.
  - change (add_floors (x :: floors) b) with (add_floors floors (add_floor x b)).
    rewrite IH. simpl. now rewrite <- app_assoc.
Qed.

Lemma add_floors_level_other (floors : list nat) :
  forall b floor, floor ∉ floors ->
  floor_levels (add_floors floors b) !! floor = floor_levels b !! floor.
Proof.
  induction floors as [|x floors IH]; intros b floor Hn; [reflexivity|].
  apply not_elem_of_cons in Hn as [Hne Hn].
  change (add_floors (x :: floors) b) with (add_floors floors (add_floor x b)).
  rewrite IH by exact Hn. simpl. apply lookup_insert_ne. congruence.
Qed.

(** A floor object that is added once gets the position it is added at,
    counted from 1, as its level, and keeps it. *)
Lemma add_floors_level (floors : list nat) :
  forall b i floor, NoDup floors -> floors !! i = Some floor ->
  floor_levels (add_floors floors b) !! floor
    = Some (Z.of_nat (length (floor_objects b) + i + 1)).
Proof.
  induction floors as [|x floors IH]; intros b i floor Hnd Hi; [discriminate|].
  apply NoDup_cons in Hnd as [Hx Hnd].
  change (add_floors (x :: floors) b) with (add_floors floors (add_floor x b)).
  destruct i as [|i]; simpl in Hi.
  - injection Hi as ->. rewrite add_floors_level_other by exact Hx. simpl.
    rewrite lookup_insert_eq, length_app. simpl. do 2 f_equal. lia.
  - rewrite (IH (add_floor x b) i floor Hnd Hi). simpl.
    rewrite length_app. simpl. do 2 f_equal. lia.
Qed.

Lemma omap_imap {A B} (f : A -> option B) (l : list A) :
  forall g : nat -> A -> B,
  (forall i x, l !! i = Some x -> f x = Some (g i x)) -> omap f l = imap g l.
Proof.
  induction l as [|x l IH]; intros g Hg; [reflexivity|].
  rewrite imap_cons. simpl. rewrite (Hg 0%nat x eq_refl). f_equal.
  apply IH. intros i y Hi. apply (Hg (S i)). exact Hi.
Qed.

Lemma building_floors_distinct (floors : list nat) :
  NoDup floors ->
  building_floors (add_floors floors new_building)
    = imap (fun i _ => mkFloor (Z.of_nat i + 1)) floors.
Proof.
  intros Hnd. unfold building_floors. rewrite add_floors_objects. simpl.
  apply omap_imap. intros i floor Hi.
  rewrite (add_floors_level floors new_building i floor Hnd Hi). simpl.
  do 2 f_equal. lia.
Qed.

Lemma building_length (n : nat) : length (building n) = n.
Proof.
  unfold building. rewrite building_floors_distinct by apply NoDup_seq.
  now rewrite length_imap, length_seq.
Qed.

Lemma building_lookup (n i : nat) :
  (i < n)%nat -> building n !! i = Some (mkFloor (Z.of_nat i + 1)).
Proof.
  intros Hi. unfold building. rewrite building_floors_distinct by apply NoDup_seq.
  rewrite list_lookup_imap, lookup_seq_lt by exact Hi. reflexivity.
Qed.

Lemma building_levels (n : nat) (f : Floor) :
  f ∈ building n -> 1 <= level f <= Z.of_nat n.
Proof.
  intros Hf. apply list_elem_of_lookup in Hf as [i Hi].
  assert (Hlt : (i < n)%nat)
    by (apply lookup_lt_Some in Hi; now rewrite building_length in Hi).
  rewrite building_lookup in Hi by exact Hlt. injection Hi as <-. simpl. lia.
Qed.

Lemma new_bank_ok (n : nat) : bank_ok (new_bank (building n)).
Proof.
  split; simpl.
  - intros f Hf. rewrite building_length. now apply building_levels.
  - intros e He. now apply elem_of_nil in He.
  - intros e He. now apply elem_of_nil in He.
Qed.

Lemma add_elevator_ok (cap : Z) (starting_location : option Floor) (b : ElevatorBank) :
  bank_ok b ->
  (forall f, starting_location = Some f -> f ∈ floors b) ->
  bank_ok (snd (add_elevator cap starting_location b)).
Proof.
  intros Hok Hstart. unfold add_elevator, new_elevator.
  rewrite py_index_first.
  destruct (head (floors b)) as [first|] eqn:Hhead; simpl; [|exact Hok].
  split; simpl.
  - apply (levels_within b Hok).
  - intros e He. apply elem_of_app in He as [He|He].
    + now apply (shares_floors b Hok).
    + apply list_elem_of_singleton in He. now subst e.
  - intros e He. apply elem_of_app in He as [He|He].
    + now apply (stands_on_floor b Hok).
    + apply list_elem_of_singleton in He. subst e. simpl.
      destruct starting_location as [f|]; simpl.
      * now apply Hstart.
      * destruct (floors b); [discriminate|]. injection Hhead as ->. left.
Qed.

Lemma call_to_wait_list (floor : Floor) (dirn : option Z) (b : ElevatorBank) (sd : side) :
  wait_list sd (snd (call_to floor dirn b)) = wait_list sd b /\
  floors (snd (call_to floor dirn b)) = floors b.
Proof.
  unfold call_to.
  destruct (nearest_elevator_dispatch_strategy _ _ _ _) as [[[i e]|]|x];
    try (destruct sd; now split).
  destruct (add_stop floor e) as [[u|x] e']; destruct sd; now split.
Qed.

Lemma dispatch_loop_member (floor_list : list Floor) (floor : Floor)
    (dirn : option Z) (es : list Elevator) :
  forall (h : nat -> nat) best r,
  dispatch_loop floor_list floor dirn (imap (fun i e => (h i, e)) es) best = Ok r ->
  fst r = fst best \/ exists i e, es !! i = Some e /\ fst r = Some (h i, e).
Proof.
  induction es as [|x es IH]; intros h best r Hrun.
  - simpl in Hrun. injection Hrun as <-. now left.
  - rewrite imap_cons in Hrun. cbn [dispatch_loop] in Hrun.
    destruct (suitability floor_list floor dirn x) as [s|err]; [|discriminate].
    cbn [bind] in Hrun.
    apply (IH (h ∘ S)) in Hrun as [Hsame | (i & e & Hi & Hr)].
    + case_bool_decide; [|now left].
      right. exists 0%nat, x. split; [reflexivity|]. exact Hsame.
    + right. exists (S i), e. split; [exact Hi|exact Hr].
Qed.

Lemma strategy_member (es : list Elevator) (floor_list : list Floor)
    (floor : Floor) (dirn : option Z) (i : nat) (e : Elevator) :
  nearest_elevator_dispatch_strategy es floor_list floor dirn = Ok (Some (i, e)) ->
  es !! i = Some e.
Proof.
  unfold nearest_elevator_dispatch_strategy. intros H.
  destruct (dispatch_loop floor_list floor dirn (imap pair es) (None, -1))
    as [r|err] eqn:Hrun; [|discriminate].
  simpl in H. injection H as Hr.
  change (imap pair es) with (imap (fun i e => (id i, e)) es) in Hrun.
  apply dispatch_loop_member in Hrun as [Hsame | (j & e' & Hj & Hr')].
  - rewrite Hr in Hsame. discriminate.
  - rewrite Hr in Hr'. now injection Hr' as -> ->.
Qed.

Lemma call_to_ok (floor : Floor) (dirn : option Z) (b : ElevatorBank) :
  bank_ok b -> bank_ok (snd (call_to floor dirn b)).
Proof.
  intros Hok. unfold call_to.
  destruct (nearest_elevator_dispatch_strategy _ _ _ _) as [[[i e]|]|x] eqn:Hs;
    try exact Hok.
  apply strategy_member in Hs.
  assert (He : e ∈ elevators b) by (apply list_elem_of_lookup; eauto).
  assert (Hupd : forall e', e' ∈ <[i := snd (add_stop floor e)]> (elevators b) ->
            valid_floors e' = floors b /\ location e' ∈ floors b).
  { intros e' He'. apply list_elem_of_lookup in He' as [j Hj].
    destruct (decide (i = j)) as [->|Hne].
    - rewrite list_lookup_insert_eq in Hj by (now apply lookup_lt_Some in Hs).
      injection Hj as <-.
      unfold add_stop. case_bool_decide; simpl;
        (split; [now apply (shares_floors b Hok) | now apply (stands_on_floor b Hok)]).
    - rewrite list_lookup_insert_ne in Hj by exact Hne.
      assert (e' ∈ elevators b) by (apply list_elem_of_lookup; eauto).
      split; [now apply (shares_floors b Hok) | now apply (stands_on_floor b Hok)]. }
  destruct (add_stop floor e) as [[u|x] e'] eqn:Hadd; simpl in Hupd;
    (split; simpl; [apply (levels_within b Hok) | apply Hupd | apply Hupd]).
Qed.

Lemma stop_waiting_preserves_ok person floor dirn (b : ElevatorBank) :
  wait_lists_ok b -> wait_lists_ok (snd (stop_waiting person floor dirn b)).
Proof.
  intros Hok. unfold stop_waiting.
  destruct (wait_set floor dirn b) as [[sd s]|x] eqn:Hw; [|exact Hok].
  case_bool_decide; [|exact Hok].
  simpl. intros sd' f.
  assert (Hf : is_Some (wait_list sd b !! floor)).
  { destruct (falsy dirn) eqn:Hd.
    - rewrite wait_set_falsy in Hw by exact Hd. discriminate.
    - rewrite wait_set_truthy in Hw by exact Hd. unfold dict_get in Hw.
      destruct (wait_list (side_of (dir_value dirn)) b !! floor) eqn:Hl;
        simpl in Hw; [|discriminate].
      injection Hw as <- <-. eauto. }
  rewrite wait_list_set_wait_list.
  assert (Hfl : floors (set_wait_list sd (<[floor:=s ∖ {[person]}]> (wait_list sd b)) b)
                = floors b) by (destruct sd; reflexivity).
  rewrite Hfl. case_decide as Hsd; [subst sd'|apply Hok].
  destruct (decide (floor = f)) as [->|Hne].
  - rewrite lookup_insert_eq. split; [intros _; now apply (Hok sd) | eauto].
  - rewrite lookup_insert_ne by exact Hne. apply Hok.
Qed.

Lemma call_to_preserves_ok floor dirn (b : ElevatorBank) :
  wait_lists_ok b -> wait_lists_ok (snd (call_to floor dirn b)).
Proof.
  intros Hok sd f.
  destruct (call_to_wait_list floor dirn b sd) as [-> ->]. apply Hok.
Qed.

(** ** Which banks still list the person after a cycle *)

Lemma wait_set_ok_inv (floor : Floor) (dirn : option Z) (b : ElevatorBank)
    (sd : side) (s : gset Person) :
  wait_set floor dirn b = Ok (sd, s) ->
  falsy dirn = false /\ sd = side_of (dir_value dirn) /\ wait_list sd b !! floor = Some s.
Proof.
  intros Hw. destruct (falsy dirn) eqn:Hd.
  - rewrite wait_set_falsy in Hw by exact Hd. discriminate.
  - rewrite wait_set_truthy in Hw by exact Hd. unfold dict_get in Hw.
    destruct (wait_list (side_of (dir_value dirn)) b !! floor) eqn:Hl;
      simpl in Hw; [|discriminate].
    injection Hw as <- <-. auto.
Qed.

Lemma wait_set_ext (floor : Floor) (dirn : option Z) (b1 b2 : ElevatorBank) :
  (forall sd, wait_list sd b1 = wait_list sd b2) ->
  wait_set floor dirn b1 = wait_set floor dirn b2.
Proof.
  intros H. unfold wait_set.
  now rewrite (H Up : wait_list_up b1 = wait_list_up b2),
              (H Down : wait_list_down b1 = wait_list_down b2).
Qed.

Lemma wait_set_after_update (floor : Floor) (dirn : option Z) (b : ElevatorBank)
    (sd : side) (s s' : gset Person) :
  wait_set floor dirn b = Ok (sd, s) ->
  wait_set floor dirn (set_wait_list sd (<[floor := s']> (wait_list sd b)) b)
    = Ok (sd, s').
Proof.
  intros Hw. apply wait_set_ok_inv in Hw as (Hd & -> & Hs).
  rewrite wait_set_truthy by exact Hd.
  rewrite wait_list_set_wait_list, decide_True by reflexivity.
  unfold dict_get. now rewrite lookup_insert_eq.
Qed.

Lemma wait_registers (self : Person) (start : Floor) (dirn : option Z)
    (b b' : ElevatorBank) :
  wait self start dirn b = (Ok tt, b') -> still_waiting self start dirn b' = true.
Proof.
  unfold wait, still_waiting, waiting_passengers.
  destruct (wait_set start dirn b) as [[sd s]|x] eqn:Hw; [|discriminate].
  intros H. injection H as <-.
  rewrite (wait_set_after_update _ _ _ _ _ _ Hw). simpl.
  apply bool_decide_eq_true. set_solver.
Qed.

Lemma stop_waiting_releases (self : Person) (start : Floor) (dirn : option Z)
    (b b' : ElevatorBank) :
  stop_waiting self start dirn b = (Ok tt, b') -> still_waiting self start dirn b' = false.
Proof.
  unfold stop_waiting, still_waiting, waiting_passengers.
  destruct (wait_set start dirn b) as [[sd s]|x] eqn:Hw; [|discriminate].
  case_bool_decide; [|discriminate].
  intros H'. injection H' as <-.
  rewrite (wait_set_after_update _ _ _ _ _ _ Hw). simpl.
  apply bool_decide_eq_false. set_solver.
Qed.

Lemma call_to_still_waiting (self : Person) (start floor : Floor)
    (dirn dirn' : option Z) (b : ElevatorBank) :
  still_waiting self start dirn (snd (call_to floor dirn' b))
    = still_waiting self start dirn b.
Proof.
  unfold still_waiting, waiting_passengers.
  rewrite (wait_set_ext start dirn (snd (call_to floor dirn' b)) b); [reflexivity|].
  intros sd. apply call_to_wait_list.
Qed.

Section Cycle.
Variable self : Person.
Variable start : Floor.
Variable dirn : option Z.

Lemma call_banks_registers (chosen : list nat) :
  forall (agent : option nat) (sim : list ElevatorBank) agent' sim',
  call_banks self start dirn chosen agent sim = (Ok agent', sim') ->
  agent' = from_option Some agent (last chosen) /\
  forall a, a ∈ chosen \/ listed_at self start dirn a sim -> listed_at self start dirn a sim'.
Proof.
  induction chosen as [|a0 rest IH]; intros agent sim agent' sim' Hrun.
  - simpl in Hrun. injection Hrun as <- <-. split; [reflexivity|].
    intros a [Ha|Ha]; [now apply elem_of_nil in Ha | exact Ha].
  - cbn [call_banks] in Hrun.
    destruct (sim !! a0) as [bank|] eqn:Hbank; [|discriminate].
    destruct (wait self start dirn bank) as [[[]|x] bank'] eqn:Hwait; [|discriminate].
    destruct (call_to start dirn bank') as [[i|x] bank''] eqn:Hcall; [|discriminate].
    apply IH in Hrun as [Hagent Hlisted].
    split.
    + rewrite Hagent, last_cons. destruct (last rest); reflexivity.
    + assert (Hhere : listed_at self start dirn a0 (<[a0 := bank'']> sim)).
      { exists bank''. split.
        - apply list_lookup_insert_eq. now apply lookup_lt_Some in Hbank.
        - replace bank'' with (snd (call_to start dirn bank')) by now rewrite Hcall.
          rewrite call_to_still_waiting. now apply (wait_registers _ _ _ bank). }
      intros a Ha. apply Hlisted.
      destruct (decide (a = a0)) as [->|Hne]; [now right|].
      destruct Ha as [Ha|(b & Hb & Hw)].
      * apply elem_of_cons in Ha as [Ha|Ha]; [contradiction|now left].
      * right. exists b. split; [|exact Hw].
        now rewrite list_lookup_insert_ne by congruence.
Qed.

(** After a cycle that went through, every chosen bank other than the last
    one still lists the person, and the last one does not. *)
Lemma only_last_bank_retracted (chosen : list nat) (sim sim' : list ElevatorBank)
    (z : nat) :
  call_then_retract self start dirn chosen sim = (Ok tt, sim') ->
  last chosen = Some z ->
  (forall a, a ∈ chosen -> a <> z -> listed_at self start dirn a sim') /\
  (exists b, sim' !! z = Some b /\ still_waiting self start dirn b = false).
Proof.
  unfold call_then_retract. intros Hrun Hlast.
  destruct (call_banks self start dirn chosen None sim) as [[agent|x] sim1] eqn:Hcall;
    [|discriminate].
  apply call_banks_registers in Hcall as [-> Hlisted].
  rewrite Hlast in Hrun. simpl in Hrun.
  destruct (sim1 !! z) as [bank|] eqn:Hbank; [|discriminate].
  destruct (stop_waiting self start dirn bank) as [r bank'] eqn:Hstop.
  injection Hrun as -> <-.
  split.
  - intros a Ha Hne. destruct (Hlisted a (or_introl Ha)) as (b & Hb & Hw).
    exists b. split; [|exact Hw]. now rewrite list_lookup_insert_ne by congruence.
  - exists bank'. split.
    + apply list_lookup_insert_eq. now apply lookup_lt_Some in Hbank.
    + now apply (stop_waiting_releases _ _ _ bank).
Qed.
End Cycle.

(** ** The dispatch without the assumptions on the bank *)

Lemma first_best_exists (score : Elevator -> Z) (es : list Elevator) :
  es <> [] -> exists i e, first_best score es i e.
Proof.
  induction es as [|x es IH]; [contradiction|]. intros _.
  destruct es as [|y es].
  - exists 0%nat, x. apply first_best_here. intros e He. now apply elem_of_nil in He.
  - destruct (IH ltac:(discriminate)) as (i & e & Hfb).
    destruct (decide (score x < score e)) as [Hlt|Hge].
    + exists (S i), e. now apply first_best_later.
    + exists 0%nat, x. apply first_best_here. intros e' He'.
      apply list_elem_of_lookup in He' as [j Hj].
      destruct Hfb as (_ & Hmax & _). specialize (Hmax j e' Hj). lia.
Qed.

(** Whatever the levels and locations: the strategy returns the first
    most suitable elevator when that one scores above the initial -1, and
    [None] otherwise. *)
Lemma strategy_characterised (floor_list : list Floor) (floor : Floor)
    (dirn : option Z) (score : Elevator -> Z) (es : list Elevator) :
  es <> [] ->
  (forall e, e ∈ es -> suitability floor_list floor dirn e = Ok (score e)) ->
  exists i e,
    first_best score es i e /\
    nearest_elevator_dispatch_strategy es floor_list floor dirn
      = Ok (if bool_decide (-1 < score e) then Some (i, e) else None).
Proof.
  intros Hne Hsc. unfold nearest_elevator_dispatch_strategy.
  change (imap pair es) with (imap (fun i e => (id i, e)) es).
  destruct (dispatch_loop_invariant floor_list floor dirn score es id None (-1) Hsc)
    as (best' & bs' & Hrun & [(-> & -> & Hle) | (i & e & -> & -> & Hlt & Hfb)]).
  - destruct (first_best_exists score es Hne) as (i & e & Hfb).
    exists i, e. split; [exact Hfb|]. rewrite Hrun. simpl.
    destruct Hfb as (Hi & _).
    assert (score e <= -1) by (apply Hle, list_elem_of_lookup; eauto).
    now rewrite bool_decide_eq_false_2 by lia.
  - exists i, e. split; [exact Hfb|]. rewrite Hrun. simpl.
    now rewrite bool_decide_eq_true_2 by lia.
Qed.

(** * Further properties of the elevator *)

(** ** Stops *)

Lemma set_stops_same (e : Elevator) (s : gset Floor) :
  s = stops e -> set_stops s e = e.
Proof. intros ->. now destruct e. Qed.

Lemma set_passengers_same (e : Elevator) (s : gset Person) :
  s = passengers e -> set_passengers s e = e.
Proof. intros ->. now destruct e. Qed.

(** X1. Adding a valid floor as a stop and removing it again: both succeed,
    the floor is a stop in between and is none afterwards, and when it was not
    a stop before, the elevator is back in its original state. *)
Theorem add_stop_then_remove_stop (e : Elevator) (floor : Floor) :
  floor ∈ valid_floors e ->
  exists e1 e2,
    add_stop floor e = (Ok tt, e1) /\ (floor ∈ stops e1) /\
    remove_stop floor e1 = (Ok tt, e2) /\ (floor ∉ stops e2) /\
    (floor ∉ stops e -> e2 = e).
Proof.
  intros Hin.
  exists (set_stops ({[floor]} ∪ stops e) e),
         (set_stops (({[floor]} ∪ stops e) ∖ {[floor]}) e).
  split; [|split; [|split; [|split]]].
  - unfold add_stop. now rewrite bool_decide_eq_true_2.
  - simpl. set_solver.
  - unfold remove_stop. simpl. rewrite bool_decide_eq_true_2 by set_solver.
    reflexivity.
  - simpl. set_solver.
  - intros Hn. apply set_stops_same. set_solver.
Qed.

Lemma add_stop_then_remove_stop_witness :
  exists e1 e2,
    add_stop (mkFloor 3) (lift_at (mkFloor 1) None ∅) = (Ok tt, e1) /\
    (mkFloor 3 ∈ stops e1) /\
    remove_stop (mkFloor 3) e1 = (Ok tt, e2) /\ (mkFloor 3 ∉ stops e2) /\
    (mkFloor 3 ∉ stops (lift_at (mkFloor 1) None ∅) -> e2 = lift_at (mkFloor 1) None ∅).
Proof.
  apply (add_stop_then_remove_stop (lift_at (mkFloor 1) None ∅) (mkFloor 3)).
  unfold lift_at, three_floors. simpl. set_solver.
Defined.


(** X3. A stop can be removed once only: whatever the elevator and the floor,
    removing the floor a second time raises the not-a-stop [ValueError] and
    changes nothing. *)
Theorem remove_stop_twice_fails (e : Elevator) (floor : Floor) :
  remove_stop floor (snd (remove_stop floor e))
    = (Raise (ValueError FloorNotAStop), snd (remove_stop floor e)).
Proof.
  destruct (decide (floor ∈ stops e)) as [Hin|Hin]; unfold remove_stop.
  - rewrite (bool_decide_eq_true_2 _ Hin). simpl.
    rewrite bool_decide_eq_false_2 by set_solver. reflexivity.
  - rewrite (bool_decide_eq_false_2 _ Hin). simpl.
    now rewrite (bool_decide_eq_false_2 _ Hin).
Qed.

Lemma perform_valid_floors (op : operation) (e : Elevator) :
  valid_floors (snd (perform op e)) = valid_floors e.
Proof.
  destruct op; simpl; try reflexivity.
  - unfold enter. destruct (doors_open e), (full e); reflexivity.
  - unfold exit. destruct (doors_open e); [case_bool_decide|]; reflexivity.
  - unfold set_direction. case_bool_decide; reflexivity.
  - unfold add_stop. case_bool_decide; reflexivity.
  - unfold remove_stop. case_bool_decide; reflexivity.
Qed.

Lemma perform_stops_valid (op : operation) (e : Elevator) :
  stops_valid e -> stops_valid (snd (perform op e)).
Proof.
  unfold stops_valid. intros H f. rewrite perform_valid_floors.
  destruct op; simpl; try apply H.
  - unfold enter. destruct (doors_open e), (full e); apply H.
  - unfold exit. destruct (doors_open e); [case_bool_decide|]; apply H.
  - unfold set_direction. case_bool_decide; apply H.
  - unfold add_stop. case_bool_decide as Hin; simpl; [|apply H].
    intros Hf. apply elem_of_union in Hf as [Hf|Hf]; [|now apply H].
    apply elem_of_singleton in Hf. now subst.
  - unfold remove_stop. case_bool_decide; simpl; [|apply H].
    intros Hf. apply H. set_solver.
Qed.

(** X4. The stops of an elevator stay among its valid floors, and the valid
    floors stay what they are, whatever operations are performed (failed ones
    included). *)
Theorem stops_stay_valid (ops : list operation) (e : Elevator) :
  stops_valid e ->
  valid_floors (perform_all ops e) = valid_floors e /\
  stops_valid (perform_all ops e).
Proof.
  revert e. induction ops as [|op ops IH]; intros e H; [now split|].
  change (perform_all (op :: ops) e) with (perform_all ops (snd (perform op e))).
  destruct (IH (snd (perform op e)) (perform_stops_valid op e H)) as [H1 H2].
  split; [|exact H2]. now rewrite H1, perform_valid_floors.
Qed.

Lemma stops_stay_valid_witness :
  valid_floors (perform_all [AddStop (mkFloor 2); AddStop (mkFloor 9); RemoveStop (mkFloor 1)]
                  (lift_at (mkFloor 1) None {[mkFloor 3]}))
    = valid_floors (lift_at (mkFloor 1) None {[mkFloor 3]}) /\
  stops_valid (perform_all [AddStop (mkFloor 2); AddStop (mkFloor 9); RemoveStop (mkFloor 1)]
                 (lift_at (mkFloor 1) None {[mkFloor 3]})).
Proof.
  apply (stops_stay_valid _ (lift_at (mkFloor 1) None {[mkFloor 3]})).
  intros f Hf. unfold lift_at in Hf. simpl in Hf.
  apply elem_of_singleton in Hf. subst f.
  unfold lift_at, three_floors. simpl. set_solver.
Defined.

(** ** Direction *)

Lemma perform_direction_ok (op : operation) (e : Elevator) :
  direction_ok (direction e) -> direction_ok (direction (snd (perform op e))).
Proof.
  intros H. destruct op; simpl; try exact H.
  - unfold enter. destruct (doors_open e), (full e); exact H.
  - unfold exit. destruct (doors_open e); [case_bool_decide|]; exact H.
  - unfold set_direction. case_bool_decide as Hv; simpl; [exact Hv|exact H].
  - unfold add_stop. case_bool_decide; exact H.
  - unfold remove_stop. case_bool_decide; exact H.
Qed.

Lemma perform_keeps_direction (op : operation) (e : Elevator) :
  (forall value, op <> SetDirection value) ->
  direction (snd (perform op e)) = direction e.
Proof.
  intros Hop. destruct op; simpl; try reflexivity.
  - unfold enter. destruct (doors_open e), (full e); reflexivity.
  - unfold exit. destruct (doors_open e); [case_bool_decide|]; reflexivity.
  - now destruct (Hop value).
  - unfold add_stop. case_bool_decide; reflexivity.
  - unfold remove_stop. case_bool_decide; reflexivity.
Qed.

(** X5. The direction is always one of [1], [-1], [0] and [None]: a new
    elevator has [None]; the setter stores each of these four values, and
    rejects every other value with a [ValueError], keeping the old direction;
    and no other operation changes the direction, whether it succeeds or
    raises. *)
Theorem direction_stays_valid (ops : list operation) (e : Elevator) :
  direction_ok (direction e) ->
  direction_ok (direction (perform_all ops e)) /\
  (forall value, direction_ok value ->
     set_direction value e = (Ok tt, set_direction_field value e) /\
     direction (set_direction_field value e) = value) /\
  (forall value, ~ direction_ok value ->
     set_direction value e = (Raise (ValueError DirectionMustBeOneOf), e)) /\
  (forall op, (forall value, op <> SetDirection value) ->
     direction (snd (perform op e)) = direction e) /\
  (forall fl cap start e0, new_elevator fl cap start = Ok e0 -> direction e0 = None).
Proof.
  intros H. split; [|split; [|split; [|split]]].
  - revert e H. induction ops as [|op ops IH]; intros e H; [exact H|].
    change (perform_all (op :: ops) e) with (perform_all ops (snd (perform op e))).
    apply IH. now apply perform_direction_ok.
  - intros value Hv. unfold set_direction.
    now rewrite bool_decide_eq_true_2 by exact Hv.
  - intros value Hv. unfold set_direction.
    now rewrite bool_decide_eq_false_2 by exact Hv.
  - intros op. apply perform_keeps_direction.
  - intros fl cap start e0. unfold new_elevator.
    destruct (py_index fl 0); simpl; [|discriminate].
    intros Heq. injection Heq as <-. reflexivity.
Qed.

Lemma direction_stays_valid_witness :
  direction_ok (direction (perform_all [SetDirection (Some 1); SetDirection (Some 2)]
                             (lift_at (mkFloor 1) None ∅))) /\
  (forall value, direction_ok value ->
     set_direction value (lift_at (mkFloor 1) None ∅)
     = (Ok tt, set_direction_field value (lift_at (mkFloor 1) None ∅)) /\
     direction (set_direction_field value (lift_at (mkFloor 1) None ∅)) = value) /\
  (forall value, ~ direction_ok value ->
     set_direction value (lift_at (mkFloor 1) None ∅)
     = (Raise (ValueError DirectionMustBeOneOf), lift_at (mkFloor 1) None ∅)) /\
  (forall op, (forall value, op <> SetDirection value) ->
     direction (snd (perform op (lift_at (mkFloor 1) None ∅)))
     = direction (lift_at (mkFloor 1) None ∅)) /\
  (forall fl cap start e0, new_elevator fl cap start = Ok e0 -> direction e0 = None).
Proof.
  apply (direction_stays_valid _ (lift_at (mkFloor 1) None ∅)).
  unfold direction_ok, lift_at. simpl. set_solver.
Defined.

(** ** Doors and passengers *)

Lemma perform_closed (op : operation) (e : Elevator) :
  doors_open e = false -> op <> OpenDoors ->
  passengers (snd (perform op e)) = passengers e /\
  doors_open (snd (perform op e)) = false.
Proof.
  intros Hc Hop. destruct op; simpl; try (now split).
  - now rewrite (enter_closed e person Hc).
  - now rewrite (exit_closed e person Hc).
  - unfold set_direction. case_bool_decide; now split.
  - unfold add_stop. case_bool_decide; now split.
  - unfold remove_stop. case_bool_decide; now split.
Qed.

(** X6. Nobody gets on or off while the doors are closed: from an elevator
    with closed doors, a sequence of operations that never opens them leaves
    the passenger set as it was (and the doors closed). *)
Theorem closed_doors_keep_passengers (ops : list operation) (e : Elevator) :
  doors_open e = false -> OpenDoors ∉ ops ->
  passengers (perform_all ops e) = passengers e /\
  doors_open (perform_all ops e) = false.
Proof.
  revert e. induction ops as [|op ops IH]; intros e Hc Hops; [now split|].
  change (perform_all (op :: ops) e) with (perform_all ops (snd (perform op e))).
  apply not_elem_of_cons in Hops as [Hop Hops].
  destruct (perform_closed op e Hc ltac:(congruence)) as [Hp Hd].
  destruct (IH (snd (perform op e)) Hd Hops) as [H1 H2].
  split; [now rewrite H1|exact H2].
Qed.

Lemma closed_doors_keep_passengers_witness :
  passengers (perform_all [Enter 5%nat; Exit 4%nat; CloseDoors; Enter 6%nat] closed_elevator)
    = passengers closed_elevator /\
  doors_open (perform_all [Enter 5%nat; Exit 4%nat; CloseDoors; Enter 6%nat] closed_elevator)
    = false.
Proof.
  apply (closed_doors_keep_passengers _ closed_elevator).
  - reflexivity.
  - intros H. repeat (apply elem_of_cons in H as [H|H]; [discriminate H|]).
    now apply elem_of_nil in H.
Defined.

(** X7. Boarding and alighting undo each other: with the doors open and room
    left, a person who is not aboard enters, is aboard, and on leaving puts the
    elevator back in the state it had before. *)
Theorem enter_then_exit (e : Elevator) (person : Person) :
  doors_open e = true -> full e = false -> person ∉ passengers e ->
  exists e1,
    enter person e = (Ok tt, e1) /\ (person ∈ passengers e1) /\
    exit person e1 = (Ok tt, e).
Proof.
  intros Ho Hf Hn. exists (set_passengers ({[person]} ∪ passengers e) e).
  split; [now apply enter_room|]. split; [simpl; set_solver|].
  unfold exit. simpl. rewrite Ho.
  rewrite bool_decide_eq_true_2 by set_solver. f_equal.
  transitivity (set_passengers (passengers e) e).
  - unfold set_passengers. simpl. f_equal. set_solver.
  - now apply set_passengers_same.
Qed.

Lemma enter_then_exit_witness :
  exists e1,
    enter 7%nat open_lift = (Ok tt, e1) /\ (7%nat ∈ passengers e1) /\
    exit 7%nat e1 = (Ok tt, open_lift).
Proof.
  apply (enter_then_exit open_lift 7%nat).
  - reflexivity.
  - reflexivity.
  - unfold open_lift. simpl. set_solver.
Defined.

(** X8. Entering again changes nothing: for a person who is already aboard,
    [enter] leaves the elevator as it is, whether the call succeeds (room
    left), or raises because the elevator is full or the doors are closed. *)
Theorem enter_aboard_changes_nothing (e : Elevator) (person : Person) :
  person ∈ passengers e -> snd (enter person e) = e.
Proof.
  intros Hin. unfold enter.
  destruct (doors_open e); [|reflexivity].
  destruct (full e); [reflexivity|]. simpl.
  apply set_passengers_same. set_solver.
Qed.

Lemma enter_aboard_changes_nothing_witness :
  snd (enter 4%nat (set_doors_open true closed_elevator))
    = set_doors_open true closed_elevator.
Proof.
  apply (enter_aboard_changes_nothing (set_doors_open true closed_elevator) 4%nat).
  unfold closed_elevator. simpl. set_solver.
Defined.

(** * Further properties of the building and of the movement *)



(** A floor object that is added a second time is in the list twice and has
    the level of its last position. *)
Lemma floor_added_twice :
  building_floors (add_floors [5%nat; 5%nat] new_building) = [mkFloor 2; mkFloor 2].
Proof. vm_compute. reflexivity. Qed.

(** X10. [next_location]: an idle elevator stays where it is; a moving one
    over a non-empty floor list is predicted on one of its valid floors; over
    an empty floor list the prediction of a moving elevator raises
    [IndexError]. *)
Theorem next_location_on_valid_floor (e : Elevator) :
  (falsy (direction e) = true -> next_location e = Ok (location e)) /\
  (falsy (direction e) = false -> valid_floors e <> [] ->
     exists nl, next_location e = Ok nl /\ nl ∈ valid_floors e) /\
  (falsy (direction e) = false -> valid_floors e = [] ->
     next_location e = Raise IndexError).
Proof.
  unfold next_location. split; [|split].
  - intros ->. reflexivity.
  - intros -> Hne.
    assert (0 < Z.of_nat (length (valid_floors e)))
      by (destruct (valid_floors e); [contradiction | simpl length; lia]).
    apply py_index_in_range. lia.
  - intros -> ->. unfold py_index. case_bool_decide; reflexivity.
Qed.

Lemma next_location_on_valid_floor_witness :
  (exists nl, next_location rising_lift = Ok nl /\ nl ∈ valid_floors rising_lift) /\
  next_location (mkElevator [] ∅ 10 (Some 1) ∅ false (mkFloor 1)) = Raise IndexError /\
  next_location idle_lift_stop_below = Ok (location idle_lift_stop_below).
Proof.
  split; [|split].
  - apply (next_location_on_valid_floor rising_lift); [reflexivity|discriminate].
  - apply (next_location_on_valid_floor (mkElevator [] ∅ 10 (Some 1) ∅ false (mkFloor 1)));
      reflexivity.
  - apply (next_location_on_valid_floor idle_lift_stop_below). reflexivity.
Defined.

Lemma py_index_building (n : nat) (i : Z) :
  0 <= i < Z.of_nat n -> py_index (building n) i = Ok (mkFloor (i + 1)).
Proof.
  intros Hi. unfold py_index.
  rewrite (bool_decide_eq_false_2 (i < 0)) by lia.
  rewrite (bool_decide_eq_true_2 (0 <= i)) by lia.
  rewrite building_lookup by lia. do 2 f_equal. lia.
Qed.

Lemma next_location_in_building (n : nat) (e : Elevator) (d : Z) :
  valid_floors e = building n ->
  1 <= level (location e) <= Z.of_nat n ->
  direction e = Some d -> d = 1 \/ d = -1 ->
  next_location e
    = Ok (mkFloor (Z.min (Z.max 1 (level (location e) + d)) (Z.of_nat n))).
Proof.
  intros Hfl Hl Hd Hpm. unfold next_location.
  rewrite Hd, Hfl, building_length. simpl.
  rewrite bool_decide_eq_false_2 by lia.
  rewrite py_index_building by lia. do 2 f_equal. lia.
Qed.

(** X11. Over the floors of a building, an elevator that moves (direction +1
    or -1) from a floor of the building is predicted exactly one level further
    in its direction, except at the end of the shaft, where it is predicted
    to stay: the level is clamped to [1 .. n]. *)
Theorem next_location_one_step (n : nat) (e : Elevator) (d : Z) :
  valid_floors e = building n ->
  1 <= level (location e) <= Z.of_nat n ->
  direction e = Some d -> d = 1 \/ d = -1 ->
  next_location e
    = Ok (mkFloor (Z.min (Z.max 1 (level (location e) + d)) (Z.of_nat n))).
Proof. apply next_location_in_building. Qed.

Lemma next_location_one_step_witness :
  next_location rising_lift
    = Ok (mkFloor (Z.min (Z.max 1 (level (location rising_lift) + 1)) (Z.of_nat 5))).
Proof.
  apply (next_location_one_step 5 rising_lift 1).
  - reflexivity.
  - simpl. lia.
  - reflexivity.
  - left. reflexivity.
Defined.

(** X12. An idle elevator (direction [0] or [None]) is never moving away from
    any floor, and so the dispatch always gives it the suitability
    [F + 2 - distance]. *)
Theorem idle_never_moving_away (e : Elevator) (floor_list : list Floor)
    (floor : Floor) (dirn : option Z) :
  falsy (direction e) = true ->
  moving_away e floor = Ok false /\
  suitability floor_list floor dirn e
    = Ok (Z.of_nat (length floor_list) + 2 - distance e floor).
Proof.
  intros Hidle.
  assert (Hm : moving_away e floor = Ok false).
  { unfold moving_away, next_location. rewrite Hidle. simpl.
    now rewrite bool_decide_eq_false_2 by lia. }
  split; [exact Hm|]. unfold suitability. rewrite Hm, Hidle. simpl.
  now rewrite orb_true_r.
Qed.

Lemma idle_never_moving_away_witness :
  moving_away idle_lift_stop_below (mkFloor 3) = Ok false /\
  suitability three_floors (mkFloor 3) (Some (-1)) idle_lift_stop_below
    = Ok (Z.of_nat (length three_floors) + 2 - distance idle_lift_stop_below (mkFloor 3)).
Proof.
  apply (idle_never_moving_away idle_lift_stop_below three_floors (mkFloor 3) (Some (-1))).
  reflexivity.
Defined.

(** X13. Over the floors of a building, a moving elevator that is not blocked
    by the end of the shaft is moving away from exactly the floors at or
    behind its own level (its own floor included); one that is blocked (at
    the top going up, at the bottom going down) is moving away from none. *)
Theorem moving_away_is_behind (n : nat) (e : Elevator) (d : Z) (floor : Floor) :
  valid_floors e = building n ->
  1 <= level (location e) <= Z.of_nat n ->
  direction e = Some d -> d = 1 \/ d = -1 ->
  moving_away e floor
    = Ok (if bool_decide (1 <= level (location e) + d <= Z.of_nat n)
          then bool_decide ((level floor - level (location e)) * d <= 0)
          else false).
Proof.
  intros Hfl Hl Hd Hpm. unfold moving_away.
  rewrite (next_location_in_building n e d Hfl Hl Hd Hpm). simpl. f_equal.
  unfold floor_distance. simpl.
  destruct (decide (1 <= level (location e) + d <= Z.of_nat n)) as [Hin|Hout].
  - rewrite (bool_decide_eq_true_2 _ Hin).
    apply bool_decide_ext. destruct Hpm; subst d; lia.
  - rewrite (bool_decide_eq_false_2 _ Hout).
    apply bool_decide_eq_false. destruct Hpm; subst d; lia.
Qed.

Lemma moving_away_is_behind_witness :
  moving_away rising_lift (mkFloor 3)
    = Ok (if bool_decide (1 <= level (location rising_lift) + 1 <= Z.of_nat 5)
          then bool_decide ((level (mkFloor 3) - level (location rising_lift)) * 1 <= 0)
          else false).
Proof.
  apply (moving_away_is_behind 5 rising_lift 1 (mkFloor 3)).
  - reflexivity.
  - simpl. lia.
  - reflexivity.
  - left. reflexivity.
Defined.

(** * Further properties of the direction policy and of the dispatch *)

Lemma head_last_nonempty {A} (l : list A) :
  l <> [] -> exists lo hi, head l = Some lo /\ last l = Some hi.
Proof.
  intros Hne. destruct l as [|x l]; [contradiction|].
  exists x. destruct (last (x :: l)) as [hi|] eqn:Hl; [eauto|].
  apply last_None in Hl. discriminate.
Qed.

Lemma boundary_override_first (e : Elevator) (lowest : Floor) :
  head (valid_floors e) = Some lowest -> location e = lowest ->
  next_direction e = Ok 1.
Proof.
  intros Hlo Hl. unfold next_direction. rewrite py_index_first, Hlo. simpl.
  now rewrite bool_decide_eq_true_2.
Qed.

(** X14. [next_direction] answers [1], [-1] or [0] for every elevator that has
    floors and whose direction is one the setter accepts; for an elevator
    without floors it raises [IndexError]. *)
Theorem next_direction_range (e : Elevator) :
  (valid_floors e = [] -> next_direction e = Raise IndexError) /\
  (valid_floors e <> [] -> direction_ok (direction e) ->
     exists z, next_direction e = Ok z /\ (z = 1 \/ z = -1 \/ z = 0)).
Proof.
  split.
  - intros Hnil. unfold next_direction. now rewrite Hnil.
  - intros Hne Hdir.
    destruct (head_last_nonempty _ Hne) as (lo & hi & Hlo & Hhi).
    destruct (decide (location e = lo)) as [Hl|Hl].
    { exists 1. split; [|now left].
      now apply (boundary_override_first e lo Hlo). }
    destruct (decide (location e = hi)) as [Hh|Hh].
    { exists (-1). split; [|right; now left].
      unfold next_direction. rewrite py_index_first, Hlo. simpl.
      rewrite bool_decide_eq_false_2 by exact Hl.
      rewrite py_index_last, Hhi. simpl.
      now rewrite bool_decide_eq_true_2. }
    destruct (falsy (direction e)) eqn:Hidle.
    + destruct (decide (stops e = ∅ \/ location e ∈ stops e)) as [Hs|Hs].
      * exists 0. split; [|right; now right].
        now apply (next_direction_idle_stays e lo hi).
      * exists 1. split; [|now left].
        apply (next_direction_idle_skips_down e lo hi); try assumption.
        -- intros H. apply Hs. now left.
        -- intros H. apply Hs. now right.
    + destruct (direction e) as [d|] eqn:Hd; [|discriminate].
      simpl in Hidle. apply bool_decide_eq_false in Hidle.
      assert (Hpm : d = 1 \/ d = -1).
      { unfold direction_ok in Hdir.
        repeat (apply elem_of_cons in Hdir as [Hdir|Hdir];
                [injection Hdir as ->; (lia || contradiction)|]).
        apply elem_of_cons in Hdir as [Hdir|Hdir]; [discriminate|].
        now apply elem_of_nil in Hdir. }
      destruct (next_location_defined e Hne) as [nl Hnl].
      rewrite (next_direction_moving e lo hi Hlo Hhi Hl Hh d nl Hd Hidle Hnl).
      eexists. split; [reflexivity|].
      destruct (forallb id _); lia.
Qed.

Lemma next_direction_range_witness :
  next_direction (mkElevator [] ∅ 10 None ∅ false (mkFloor 1)) = Raise IndexError /\
  exists z, next_direction rising_lift = Ok z /\ (z = 1 \/ z = -1 \/ z = 0).
Proof.
  split.
  - apply (next_direction_range (mkElevator [] ∅ 10 None ∅ false (mkFloor 1))).
    reflexivity.
  - apply (next_direction_range rising_lift).
    + discriminate.
    + unfold direction_ok, rising_lift. simpl. set_solver.
Defined.

(** X15. The idle rule as the code has it: an idle elevator strictly between
    its first and last floor stays idle ([0]) when it has no stops or stands
    on one of them, and otherwise answers up ([1]), wherever its stops are;
    it never answers down. *)
Theorem idle_rule (e : Elevator) (lowest highest : Floor) :
  head (valid_floors e) = Some lowest -> last (valid_floors e) = Some highest ->
  location e <> lowest -> location e <> highest ->
  falsy (direction e) = true ->
  next_direction e
    = Ok (if bool_decide (stops e = ∅ \/ location e ∈ stops e) then 0 else 1).
Proof.
  intros Hlo Hhi Hl Hh Hidle. case_bool_decide as Hs.
  - now apply (next_direction_idle_stays e lowest highest).
  - apply (next_direction_idle_skips_down e lowest highest); try assumption.
    + intros H. apply Hs. now left.
    + intros H. apply Hs. now right.
Qed.

Lemma idle_rule_witness :
  next_direction (lift_at (mkFloor 2) (Some 0) {[mkFloor 2; mkFloor 3]})
    = Ok (if bool_decide (stops (lift_at (mkFloor 2) (Some 0) {[mkFloor 2; mkFloor 3]}) = ∅ \/
                          location (lift_at (mkFloor 2) (Some 0) {[mkFloor 2; mkFloor 3]})
                            ∈ stops (lift_at (mkFloor 2) (Some 0) {[mkFloor 2; mkFloor 3]}))
          then 0 else 1).
Proof.
  apply (idle_rule (lift_at (mkFloor 2) (Some 0) {[mkFloor 2; mkFloor 3]})
           (mkFloor 1) (mkFloor 3)).
  - reflexivity.
  - reflexivity.
  - intros H. discriminate H.
  - intros H. discriminate H.
  - reflexivity.
Defined.

(** X16. An elevator that stands on the call floor is never given the low
    suitability 1: it scores [F + 2] when it travels in the requested
    direction or is idle, and [F + 1] otherwise. *)
Theorem suitability_on_call_floor (floor_list : list Floor) (floor : Floor)
    (dirn : option Z) (e : Elevator) :
  valid_floors e <> [] -> distance e floor = 0 ->
  suitability floor_list floor dirn e
    = Ok (if bool_decide (direction e = dirn \/ falsy (direction e) = true)
          then Z.of_nat (length floor_list) + 2
          else Z.of_nat (length floor_list) + 1).
Proof.
  intros Hne Hd. rewrite (suitability_as_specified _ _ _ _ Hne).
  unfold spec_suitability. rewrite decide_False by (intros [_ H]; contradiction).
  rewrite Hd. f_equal.
  case_bool_decide as Hs.
  - rewrite decide_True by exact Hs. lia.
  - rewrite decide_False by exact Hs. lia.
Qed.

Lemma suitability_on_call_floor_witness :
  suitability five_floors (mkFloor 3) (Some (-1)) rising_lift
    = Ok (if bool_decide (direction rising_lift = Some (-1) \/
                          falsy (direction rising_lift) = true)
          then Z.of_nat (length five_floors) + 2
          else Z.of_nat (length five_floors) + 1).
Proof.
  apply (suitability_on_call_floor five_floors (mkFloor 3) (Some (-1)) rising_lift).
  - discriminate.
  - reflexivity.
Defined.

(** X17. In a bank in good state every elevator gets, for a call on a serviced
    floor, a suitability between 1 and [F + 2], and the top score [F + 2] goes
    exactly to the elevators that stand on the call floor and are idle or
    travel in the requested direction. *)
Theorem suitability_range (b : ElevatorBank) (floor : Floor) (dirn : option Z)
    (e : Elevator) :
  bank_ok b -> e ∈ elevators b -> floor ∈ floors b ->
  exists s,
    suitability (floors b) floor dirn e = Ok s /\
    1 <= s <= Z.of_nat (length (floors b)) + 2 /\
    (s = Z.of_nat (length (floors b)) + 2 <->
     distance e floor = 0 /\ (direction e = dirn \/ falsy (direction e) = true)).
Proof.
  intros Hok He Hf.
  assert (Hne : valid_floors e <> []).
  { rewrite (shares_floors b Hok e He). intros H. rewrite H in Hf.
    now apply elem_of_nil in Hf. }
  pose proof (levels_within b Hok floor Hf) as Hlf.
  pose proof (levels_within b Hok (location e) (stands_on_floor b Hok e He)) as Hle.
  eexists. split; [now apply suitability_as_specified|].
  unfold spec_suitability, distance, floor_distance.
  destruct (decide (moving_away e floor = Ok true /\
                    Z.abs (level (location e) - level floor) <> 0)) as [[_ Hd]|Hna].
  - split; [lia|]. split; [lia|]. intros [Hz _]. contradiction.
  - destruct (decide (direction e = dirn \/ falsy (direction e) = true)) as [Hs|Hs].
    + split; [lia|]. split; [intros Heq; split; [lia|exact Hs] | intros [Hz _]; lia].
    + split; [lia|]. split; [lia | intros [_ Hs']; contradiction].
Qed.

Lemma suitability_range_witness :
  exists s,
    suitability (floors twin_bank) (mkFloor 2) (Some 1) (lift_at (mkFloor 1) None ∅) = Ok s /\
    1 <= s <= Z.of_nat (length (floors twin_bank)) + 2 /\
    (s = Z.of_nat (length (floors twin_bank)) + 2 <->
     distance (lift_at (mkFloor 1) None ∅) (mkFloor 2) = 0 /\
     (direction (lift_at (mkFloor 1) None ∅) = Some 1 \/
      falsy (direction (lift_at (mkFloor 1) None ∅)) = true)).
Proof.
  apply (suitability_range twin_bank (mkFloor 2) (Some 1) (lift_at (mkFloor 1) None ∅)).
  - exact twin_bank_ok.
  - unfold twin_bank. simpl. left.
  - unfold twin_bank, three_floors. simpl. set_solver.
Defined.

(** X18. The dispatch strategy over a non-empty list of elevators that all
    have floors never raises: it returns the first elevator of maximal
    suitability when that suitability exceeds the initial [-1], and [None]
    when no elevator scores above [-1]. *)
Theorem dispatch_returns_first_best_or_none (es : list Elevator)
    (floor_list : list Floor) (floor : Floor) (dirn : option Z) :
  es <> [] -> (forall e, e ∈ es -> valid_floors e <> []) ->
  exists i e,
    first_best (spec_suitability (Z.of_nat (length floor_list)) floor dirn) es i e /\
    nearest_elevator_dispatch_strategy es floor_list floor dirn
      = Ok (if bool_decide
                 (-1 < spec_suitability (Z.of_nat (length floor_list)) floor dirn e)
            then Some (i, e) else None).
Proof.
  intros Hne Hfl. apply strategy_characterised; [exact Hne|].
  intros e He. apply suitability_as_specified. now apply Hfl.
Qed.

Lemma dispatch_returns_first_best_or_none_witness :
  exists i e,
    first_best (spec_suitability (Z.of_nat (length [mkFloor 1])) (mkFloor 9) (Some 1))
               far_call_lifts i e /\
    nearest_elevator_dispatch_strategy far_call_lifts [mkFloor 1] (mkFloor 9) (Some 1)
      = Ok (if bool_decide
                 (-1 < spec_suitability (Z.of_nat (length [mkFloor 1])) (mkFloor 9) (Some 1) e)
            then Some (i, e) else None).
Proof.
  apply (dispatch_returns_first_best_or_none far_call_lifts [mkFloor 1] (mkFloor 9) (Some 1)).
  - discriminate.
  - intros e He. unfold far_call_lifts in He. each_member He. discriminate.
Defined.

(** In [far_call_lifts] the only elevator scores -5, so nothing is selected. *)
Lemma far_call_selects_nothing :
  nearest_elevator_dispatch_strategy far_call_lifts [mkFloor 1] (mkFloor 9) (Some 1)
    = Ok None.
Proof. vm_compute. reflexivity. Qed.

(** * Further properties of the bank *)

(** ** Wait sets *)

(** X19. A new bank has no elevators and nobody waiting: for every serviced
    floor and every truthy direction the wait set is empty. *)
Theorem new_bank_is_empty (fl : list Floor) (floor : Floor) (dirn : option Z) :
  floor ∈ fl -> falsy dirn = false ->
  elevators (new_bank fl) = [] /\
  waiting_passengers floor dirn (new_bank fl) = Ok ∅.
Proof.
  intros Hin Hd. split; [reflexivity|].
  unfold waiting_passengers. rewrite wait_set_truthy by exact Hd.
  unfold dict_get.
  assert (Hl : forall sd, wait_list sd (new_bank fl) !! floor = Some ∅).
  { intros sd. destruct sd; simpl; rewrite empty_wait_list_lookup;
      now rewrite bool_decide_eq_true_2. }
  now rewrite Hl.
Qed.

Lemma new_bank_is_empty_witness :
  elevators (new_bank three_floors) = [] /\
  waiting_passengers (mkFloor 2) (Some (-1)) (new_bank three_floors) = Ok ∅.
Proof.
  apply (new_bank_is_empty three_floors (mkFloor 2) (Some (-1))).
  - unfold three_floors. set_solver.
  - reflexivity.
Defined.

Lemma waiting_passengers_inv (floor : Floor) (dirn : option Z) (b : ElevatorBank)
    (s : gset Person) :
  waiting_passengers floor dirn b = Ok s ->
  wait_set floor dirn b = Ok (side_of (dir_value dirn), s).
Proof.
  unfold waiting_passengers.
  destruct (wait_set floor dirn b) as [[sd s']|x] eqn:Hw; [|discriminate].
  simpl. intros Heq. injection Heq as ->.
  apply wait_set_ok_inv in Hw as (_ & -> & _). reflexivity.
Qed.

(** X20. Registering and retracting undo each other: when the wait set of the
    floor and direction can be read and does not hold the person, [wait]
    succeeds and puts the person in it, and [stop_waiting] then succeeds and
    gives back the bank as it was. *)
Theorem wait_then_stop_waiting (b : ElevatorBank) (person : Person)
    (floor : Floor) (dirn : option Z) (s : gset Person) :
  waiting_passengers floor dirn b = Ok s -> person ∉ s ->
  exists b1,
    wait person floor dirn b = (Ok tt, b1) /\
    waiting_passengers floor dirn b1 = Ok ({[person]} ∪ s) /\
    stop_waiting person floor dirn b1 = (Ok tt, b).
Proof.
  intros Hs Hn. apply waiting_passengers_inv in Hs.
  set (sd := side_of (dir_value dirn)) in *.
  pose proof (wait_set_after_update floor dirn b sd s ({[person]} ∪ s) Hs) as Hup.
  exists (set_wait_list sd (<[floor := {[person]} ∪ s]> (wait_list sd b)) b).
  split; [|split].
  - unfold wait. now rewrite Hs.
  - unfold waiting_passengers. now rewrite Hup.
  - unfold stop_waiting. rewrite Hup.
    rewrite bool_decide_eq_true_2 by set_solver. f_equal.
    rewrite set_wait_list_twice.
    rewrite wait_list_set_wait_list, decide_True by reflexivity.
    rewrite insert_insert_eq.
    apply wait_set_ok_inv in Hs as (_ & _ & Hl).
    replace (({[person]} ∪ s) ∖ {[person]}) with s by set_solver.
    rewrite (insert_id _ _ _ Hl). apply set_wait_list_id.
Qed.

Lemma wait_then_stop_waiting_witness :
  exists b1,
    wait 3%nat (mkFloor 2) (Some 1) (new_bank three_floors) = (Ok tt, b1) /\
    waiting_passengers (mkFloor 2) (Some 1) b1 = Ok ({[3%nat]} ∪ ∅) /\
    stop_waiting 3%nat (mkFloor 2) (Some 1) b1 = (Ok tt, new_bank three_floors).
Proof.
  apply (wait_then_stop_waiting (new_bank three_floors) 3%nat (mkFloor 2) (Some 1) ∅).
  - vm_compute. reflexivity.
  - set_solver.
Defined.

(** X21. A person can be retracted once only: [stop_waiting] for a person who
    is not in the wait set raises the [KeyError] of [set.remove] and leaves
    the bank as it was, and so does a second [stop_waiting] after a
    successful one. *)
Theorem stop_waiting_only_once (b : ElevatorBank) (person : Person)
    (floor : Floor) (dirn : option Z) :
  (forall s, waiting_passengers floor dirn b = Ok s -> person ∉ s ->
     stop_waiting person floor dirn b = (Raise KeyError, b)) /\
  (forall b', stop_waiting person floor dirn b = (Ok tt, b') ->
     stop_waiting person floor dirn b' = (Raise KeyError, b')).
Proof.
  split.
  - intros s Hs Hn. apply waiting_passengers_inv in Hs.
    unfold stop_waiting. rewrite Hs.
    now rewrite bool_decide_eq_false_2 by exact Hn.
  - intros b'. unfold stop_waiting at 1.
    destruct (wait_set floor dirn b) as [[sd s]|x] eqn:Hw; [|discriminate].
    case_bool_decide; [|discriminate].
    intros Heq. injection Heq as <-.
    unfold stop_waiting.
    rewrite (wait_set_after_update floor dirn b sd s (s ∖ {[person]}) Hw).
    now rewrite bool_decide_eq_false_2 by set_solver.
Qed.

Lemma stop_waiting_only_once_witness :
  stop_waiting 3%nat (mkFloor 2) (Some 1) (new_bank three_floors)
    = (Raise KeyError, new_bank three_floors).
Proof.
  apply (proj1 (stop_waiting_only_once (new_bank three_floors) 3%nat (mkFloor 2)
                  (Some 1)) ∅).
  - vm_compute. reflexivity.
  - set_solver.
Defined.

Lemma waiting_passengers_set_wait_list (floor floor' : Floor) (dirn' : option Z)
    (sd : side) (s : gset Person) (b : ElevatorBank) :
  floor' <> floor \/ side_of (dir_value dirn') <> sd ->
  waiting_passengers floor' dirn'
    (set_wait_list sd (<[floor := s]> (wait_list sd b)) b)
  = waiting_passengers floor' dirn' b.
Proof.
  intros Hother. unfold waiting_passengers.
  destruct (falsy dirn') eqn:Hd.
  - now rewrite !wait_set_falsy by exact Hd.
  - rewrite !wait_set_truthy by exact Hd.
    rewrite wait_list_set_wait_list. case_decide as Hsd; [|reflexivity].
    destruct Hother as [Hf|Hs]; [|contradiction].
    unfold dict_get. rewrite lookup_insert_ne by congruence.
    now rewrite Hsd.
Qed.

(** X22. [wait] and [stop_waiting] touch one wait set only: the wait set of
    any other floor, and that of the same floor in the other direction, read
    the same before and after the call, whether it succeeds or raises. *)
Theorem wait_touches_one_set (b : ElevatorBank) (person : Person)
    (floor floor' : Floor) (dirn dirn' : option Z) :
  floor' <> floor \/ side_of (dir_value dirn') <> side_of (dir_value dirn) ->
  waiting_passengers floor' dirn' (snd (wait person floor dirn b))
    = waiting_passengers floor' dirn' b /\
  waiting_passengers floor' dirn' (snd (stop_waiting person floor dirn b))
    = waiting_passengers floor' dirn' b.
Proof.
  intros Hother. unfold wait, stop_waiting.
  destruct (wait_set floor dirn b) as [[sd s]|x] eqn:Hw; [|now split].
  apply wait_set_ok_inv in Hw as (_ & -> & _).
  split.
  - now apply waiting_passengers_set_wait_list.
  - case_bool_decide; [|reflexivity].
    now apply waiting_passengers_set_wait_list.
Qed.

Lemma wait_touches_one_set_witness :
  waiting_passengers (mkFloor 2) (Some (-1))
    (snd (wait 3%nat (mkFloor 2) (Some 1) (new_bank three_floors)))
    = waiting_passengers (mkFloor 2) (Some (-1)) (new_bank three_floors) /\
  waiting_passengers (mkFloor 2) (Some (-1))
    (snd (stop_waiting 3%nat (mkFloor 2) (Some 1) (new_bank three_floors)))
    = waiting_passengers (mkFloor 2) (Some (-1)) (new_bank three_floors).
Proof.
  apply (wait_touches_one_set (new_bank three_floors) 3%nat (mkFloor 2) (mkFloor 2)
           (Some 1) (Some (-1))).
  right. discriminate.
Defined.

(** ** Calls *)

Lemma call_to_cases (floor : Floor) (dirn : option Z) (b : ElevatorBank) :
  (is_raise (fst (call_to floor dirn b)) /\ snd (call_to floor dirn b) = b) \/
  (exists i e,
     elevators b !! i = Some e /\ floor ∈ valid_floors e /\
     call_to floor dirn b
       = (Ok i, set_elevators (<[i := set_stops ({[floor]} ∪ stops e) e]> (elevators b)) b)).
Proof.
  unfold call_to.
  destruct (nearest_elevator_dispatch_strategy _ _ _ _) as [[[i e]|]|x] eqn:Hs;
    try (left; now split).
  apply strategy_member in Hs. unfold add_stop.
  case_bool_decide as Hin.
  - right. exists i, e. auto.
  - left. split; [exact I|]. simpl.
    rewrite (list_insert_id _ _ _ Hs). now destruct b.
Qed.

(** X23. A call that fails changes nothing: whenever [call_to] raises (no
    elevator selected, a floor the selected elevator cannot stop on, an error
    in the strategy), the bank is left exactly as it was. *)
Theorem failed_call_changes_nothing (floor : Floor) (dirn : option Z)
    (b : ElevatorBank) :
  is_raise (fst (call_to floor dirn b)) -> snd (call_to floor dirn b) = b.
Proof.
  intros Hr. destruct (call_to_cases floor dirn b) as [[_ H]|(i & e & _ & _ & H)].
  - exact H.
  - rewrite H in Hr. contradiction.
Qed.

Lemma failed_call_changes_nothing_witness :
  snd (call_to (mkFloor 9) (Some 1) twin_bank) = twin_bank.
Proof.
  apply (failed_call_changes_nothing (mkFloor 9) (Some 1) twin_bank).
  vm_compute. exact I.
Defined.

(** X24. A call that succeeds changes one thing: the returned position holds
    an elevator of the bank that can stop on the floor, and the bank afterwards
    differs only in that this elevator has the floor among its stops; the
    floors, the wait sets, the number of elevators and every other elevator
    are as before. *)
Theorem successful_call_adds_one_stop (floor : Floor) (dirn : option Z)
    (b b' : ElevatorBank) (i : nat) :
  call_to floor dirn b = (Ok i, b') ->
  exists e,
    elevators b !! i = Some e /\ (floor ∈ valid_floors e) /\
    elevators b' !! i = Some (set_stops ({[floor]} ∪ stops e) e) /\
    (forall j, j <> i -> elevators b' !! j = elevators b !! j) /\
    length (elevators b') = length (elevators b) /\
    floors b' = floors b /\
    (forall sd, wait_list sd b' = wait_list sd b).
Proof.
  intros Hcall.
  destruct (call_to_cases floor dirn b) as [[Hr _]|(j & e & Hj & Hin & H)].
  - rewrite Hcall in Hr. contradiction.
  - rewrite Hcall in H. injection H as -> ->.
    exists e. split; [exact Hj|]. split; [exact Hin|]. simpl.
    split; [|split; [|split; [|split]]].
    + apply list_lookup_insert_eq. now apply lookup_lt_Some in Hj.
    + intros k Hk. now apply list_lookup_insert_ne.
    + apply length_insert.
    + reflexivity.
    + intros sd. now destruct sd.
Qed.

Lemma successful_call_adds_one_stop_witness :
  exists e,
    elevators twin_bank !! 0%nat = Some e /\ (mkFloor 2 ∈ valid_floors e) /\
    elevators (snd (call_to (mkFloor 2) (Some 1) twin_bank)) !! 0%nat
      = Some (set_stops ({[mkFloor 2]} ∪ stops e) e) /\
    (forall j, j <> 0%nat ->
       elevators (snd (call_to (mkFloor 2) (Some 1) twin_bank)) !! j
       = elevators twin_bank !! j) /\
    length (elevators (snd (call_to (mkFloor 2) (Some 1) twin_bank)))
      = length (elevators twin_bank) /\
    floors (snd (call_to (mkFloor 2) (Some 1) twin_bank)) = floors twin_bank /\
    (forall sd, wait_list sd (snd (call_to (mkFloor 2) (Some 1) twin_bank))
                = wait_list sd twin_bank).
Proof.
  apply (successful_call_adds_one_stop (mkFloor 2) (Some 1) twin_bank).
  vm_compute. reflexivity.
Defined.

Lemma suitability_ignores_stops (floor_list : list Floor) (floor : Floor)
    (dirn : option Z) (s : gset Floor) (e : Elevator) :
  suitability floor_list floor dirn (set_stops s e)
    = suitability floor_list floor dirn e.
Proof. reflexivity. Qed.

Lemma dispatch_loop_same_scores (floor_list : list Floor) (floor : Floor)
    (dirn : option Z) (l1 l2 : list Elevator) :
  Forall2 (fun e e' => suitability floor_list floor dirn e
                       = suitability floor_list floor dirn e') l1 l2 ->
  forall (h : nat -> nat) best1 best2,
  snd best1 = snd best2 -> fst <$> fst best1 = fst <$> fst best2 ->
  match dispatch_loop floor_list floor dirn (imap (fun i e => (h i, e)) l1) best1,
        dispatch_loop floor_list floor dirn (imap (fun i e => (h i, e)) l2) best2 with
  | Ok r1, Ok r2 => snd r1 = snd r2 /\ fst <$> fst r1 = fst <$> fst r2
  | Raise x, Raise y => x = y
  | _, _ => False
  end.
Proof.
  induction 1 as [|e e' l1 l2 He _ IH]; intros h best1 best2 Hs Hi.
  - simpl. now split.
  - rewrite !imap_cons. cbn [dispatch_loop]. rewrite <- He.
    destruct (suitability floor_list floor dirn e) as [s|x]; [|reflexivity].
    cbn [bind]. rewrite <- Hs.
    apply (IH (h ∘ S)); case_bool_decide; simpl; auto.
Qed.

(** X25. Calling twice is calling once: after a successful [call_to], the same
    call made again selects the same elevator and leaves the bank as the first
    call left it. *)
Theorem call_to_idempotent (floor : Floor) (dirn : option Z)
    (b b' : ElevatorBank) (i : nat) :
  call_to floor dirn b = (Ok i, b') -> call_to floor dirn b' = (Ok i, b').
Proof.
  intros Hcall.
  destruct (call_to_cases floor dirn b) as [[Hr _]|(j & e & Hj & Hin & H)].
  { rewrite Hcall in Hr. contradiction. }
  rewrite Hcall in H. injection H as -> ->.
  set (e' := set_stops ({[floor]} ∪ stops e) e).
  set (es' := <[j := e']> (elevators b)).
  assert (Hrel : Forall2 (fun e1 e2 => suitability (floors b) floor dirn e1
                                       = suitability (floors b) floor dirn e2)
                   (elevators b) es').
  { rewrite <- (list_insert_id (elevators b) j e Hj) at 1.
    apply Forall2_insert; [|reflexivity].
    apply Forall_Forall2_diag, Forall_forall. reflexivity. }
  assert (Hfirst : nearest_elevator_dispatch_strategy (elevators b) (floors b) floor dirn
                   = Ok (Some (j, e))).
  { unfold call_to in Hcall.
    destruct (nearest_elevator_dispatch_strategy _ _ _ _) as [[[k e0]|]|x] eqn:Hs;
      try discriminate.
    pose proof (strategy_member _ _ _ _ _ _ Hs) as Hk.
    destruct (add_stop floor e0) as [[u|x] e1]; [|discriminate].
    injection Hcall as -> _. rewrite Hj in Hk. now injection Hk as ->. }
  assert (Hsecond : nearest_elevator_dispatch_strategy es' (floors b) floor dirn
                    = Ok (Some (j, e'))).
  { pose proof (dispatch_loop_same_scores (floors b) floor dirn _ _ Hrel id
                  (None, -1) (None, -1) eq_refl eq_refl) as Hsame.
    unfold nearest_elevator_dispatch_strategy in Hfirst |- *.
    change (imap pair (elevators b)) with (imap (fun i e => (id i, e)) (elevators b)) in Hfirst.
    change (imap pair es') with (imap (fun i e => (id i, e)) es').
    destruct (dispatch_loop (floors b) floor dirn
                (imap (fun i e => (id i, e)) (elevators b)) (None, -1))
      as [[best1 s1]|x] eqn:H1; [|discriminate].
    simpl in Hfirst. injection Hfirst as ->.
    destruct (dispatch_loop (floors b) floor dirn
                (imap (fun i e => (id i, e)) es') (None, -1))
      as [[best2 s2]|x] eqn:H2; [|contradiction].
    destruct Hsame as [_ Hidx]. simpl in Hidx.
    destruct best2 as [[k e2]|]; [|discriminate]. simpl in Hidx.
    injection Hidx as <-.
    assert (Hmem : es' !! j = Some e2).
    { apply (strategy_member es' (floors b) floor dirn).
      unfold nearest_elevator_dispatch_strategy.
      change (imap pair es') with (imap (fun i e => (id i, e)) es').
      now rewrite H2. }
    unfold es' in Hmem.
    rewrite list_lookup_insert_eq in Hmem by (now apply lookup_lt_Some in Hj).
    injection Hmem as <-. reflexivity. }
  unfold call_to. cbn [elevators floors set_elevators]. fold es'. rewrite Hsecond.
  unfold add_stop. rewrite bool_decide_eq_true_2 by exact Hin. f_equal.
  unfold set_elevators. cbn [elevators floors wait_list_up wait_list_down].
  f_equal. unfold es'. rewrite list_insert_insert_eq. f_equal.
  unfold e', set_stops. simpl. f_equal. set_solver.
Qed.

Lemma call_to_idempotent_witness :
  call_to (mkFloor 2) (Some 1) (snd (call_to (mkFloor 2) (Some 1) twin_bank))
    = (Ok 0%nat, snd (call_to (mkFloor 2) (Some 1) twin_bank)).
Proof.
  apply (call_to_idempotent (mkFloor 2) (Some 1) twin_bank).
  vm_compute. reflexivity.
Defined.

(** ** The states a bank goes through *)

Lemma set_wait_list_bank_ok (sd : side) m (b : ElevatorBank) :
  bank_ok b -> bank_ok (set_wait_list sd m b).
Proof. intros [H1 H2 H3]. destruct sd; now split. Qed.

Lemma wait_bank_ok person floor dirn (b : ElevatorBank) :
  bank_ok b ->
  bank_ok (snd (wait person floor dirn b)) /\
  bank_ok (snd (stop_waiting person floor dirn b)).
Proof.
  intros Hok. unfold wait, stop_waiting.
  destruct (wait_set floor dirn b) as [[sd s]|x]; [|now split].
  split; [now apply set_wait_list_bank_ok|].
  case_bool_decide; [now apply set_wait_list_bank_ok|exact Hok].
Qed.

Lemma add_elevator_preserves_ok cap start (b : ElevatorBank) :
  wait_lists_ok b -> wait_lists_ok (snd (add_elevator cap start b)).
Proof.
  intros Hok. unfold add_elevator.
  destruct (new_elevator (floors b) cap start); [|exact Hok].
  intros sd f. specialize (Hok sd f). now destruct sd.
Qed.

Lemma bank_perform_floors (op : bank_operation) (b : ElevatorBank) :
  floors (bank_perform op b) = floors b.
Proof.
  destruct op; simpl.
  - unfold wait. destruct (wait_set floor dirn b) as [[[] s]|x]; reflexivity.
  - unfold stop_waiting. destruct (wait_set floor dirn b) as [[[] s]|x];
      try case_bool_decide; reflexivity.
  - apply (call_to_wait_list floor dirn b Up).
  - unfold add_elevator. destruct (new_elevator _ _ _); reflexivity.
Qed.

Lemma bank_perform_ok (op : bank_operation) (b : ElevatorBank) :
  starts_on (floors b) op -> bank_ok b /\ wait_lists_ok b ->
  bank_ok (bank_perform op b) /\ wait_lists_ok (bank_perform op b).
Proof.
  intros Hstart [Hb Hw]. destruct op; simpl.
  - split; [now apply wait_bank_ok | now apply wait_preserves_ok].
  - split; [now apply wait_bank_ok | now apply stop_waiting_preserves_ok].
  - split; [now apply call_to_ok | now apply call_to_preserves_ok].
  - split; [|now apply add_elevator_preserves_ok].
    apply add_elevator_ok; [exact Hb|].
    intros f ->. exact Hstart.
Qed.

(** X26. Every bank built over the floors of a building and driven through
    [wait], [stop_waiting], [call_to] and [add_elevator] (the elevators
    starting on the default floor or on a floor of the building) stays in good
    state: it keeps its floors, whose levels run from 1 to their number, each
    of its elevators shares these floors and stands on one of them, and the
    keys of both wait dictionaries are exactly the floors. *)
Theorem reachable_bank_in_good_state (n : nat) (ops : list bank_operation) :
  Forall (starts_on (building n)) ops ->
  floors (bank_perform_all ops (new_bank (building n))) = building n /\
  bank_ok (bank_perform_all ops (new_bank (building n))) /\
  wait_lists_ok (bank_perform_all ops (new_bank (building n))).
Proof.
  intros Hops.
  assert (Hgen : forall b, floors b = building n -> bank_ok b /\ wait_lists_ok b ->
            floors (bank_perform_all ops b) = building n /\
            bank_ok (bank_perform_all ops b) /\ wait_lists_ok (bank_perform_all ops b)).
  { induction Hops as [|op ops Hop _ IH]; intros b Hfl Hb; [now split|].
    change (bank_perform_all (op :: ops) b)
      with (bank_perform_all ops (bank_perform op b)).
    apply IH.
    - now rewrite bank_perform_floors.
    - apply bank_perform_ok; [now rewrite Hfl|exact Hb]. }
  apply Hgen; [reflexivity|].
  split; [apply new_bank_ok | apply new_bank_wait_lists_ok].
Qed.

Lemma reachable_bank_in_good_state_witness :
  floors (bank_perform_all
            [AddElevator 10 None; Wait 3%nat (mkFloor 1) (Some 1);
             CallTo (mkFloor 1) (Some 1); AddElevator 4 (Some (mkFloor 3))]
            (new_bank (building 3))) = building 3 /\
  bank_ok (bank_perform_all
            [AddElevator 10 None; Wait 3%nat (mkFloor 1) (Some 1);
             CallTo (mkFloor 1) (Some 1); AddElevator 4 (Some (mkFloor 3))]
            (new_bank (building 3))) /\
  wait_lists_ok (bank_perform_all
            [AddElevator 10 None; Wait 3%nat (mkFloor 1) (Some 1);
             CallTo (mkFloor 1) (Some 1); AddElevator 4 (Some (mkFloor 3))]
            (new_bank (building 3))).
Proof.
  apply (reachable_bank_in_good_state 3).
  repeat constructor.
Defined.

(** * Further properties of the person's cycle *)

Lemma call_banks_untouched (self : Person) (start : Floor) (dirn : option Z)
    (chosen : list nat) :
  forall (agent : option nat) (sim : list ElevatorBank) (a : nat),
  a ∉ chosen ->
  snd (call_banks self start dirn chosen agent sim) !! a = sim !! a.
Proof.
  induction chosen as [|a0 rest IH]; intros agent sim a Ha; [reflexivity|].
  apply not_elem_of_cons in Ha as [Hne Ha].
  cbn [call_banks].
  destruct (sim !! a0) as [bank|]; [|reflexivity].
  destruct (wait self start dirn bank) as [[[]|x] bank'].
  - destruct (call_to start dirn bank') as [[i|x] bank''].
    + rewrite IH by exact Ha. now apply list_lookup_insert_ne.
    + simpl. now apply list_lookup_insert_ne.
  - simpl. now apply list_lookup_insert_ne.
Qed.

(** X27. A cycle touches only the banks the call strategy chose: every other
    bank of the simulation is afterwards exactly what it was, whether the
    cycle went through or raised. *)
Theorem cycle_leaves_other_banks (self : Person) (start : Floor)
    (dirn : option Z) (chosen : list nat) (sim : list ElevatorBank) (a : nat) :
  a ∉ chosen ->
  snd (call_then_retract self start dirn chosen sim) !! a = sim !! a.
Proof.
  intros Ha. unfold call_then_retract.
  pose proof (call_banks_untouched self start dirn chosen None sim a Ha) as Hc.
  destruct (call_banks self start dirn chosen None sim) as [[agent|x] sim1] eqn:Hrun;
    [|exact Hc].
  apply call_banks_registers in Hrun as [-> _]. simpl in Hc.
  unfold retract_wait.
  destruct (last chosen) as [z|] eqn:Hlast; simpl; [|exact Hc].
  destruct (sim1 !! z) as [bank|]; [|exact Hc].
  destruct (stop_waiting self start dirn bank) as [r bank']. simpl.
  rewrite list_lookup_insert_ne; [exact Hc|].
  intros ->. apply Ha. apply last_Some in Hlast as [l' ->].
  apply elem_of_app. right. left.
Qed.

Lemma cycle_leaves_other_banks_witness :
  snd (call_then_retract 7%nat (mkFloor 1) (Some 1) [1%nat] two_banks) !! 0%nat
    = two_banks !! 0%nat.
Proof.
  apply (cycle_leaves_other_banks 7%nat (mkFloor 1) (Some 1) [1%nat] two_banks 0%nat).
  intros H. apply elem_of_cons in H as [H|H]; [discriminate H|].
  now apply elem_of_nil in H.
Defined.

(** X28. With a single bank chosen, as the default strategy does, a cycle that
    goes through leaves no trace in the wait sets: the chosen bank no longer
    lists the person. *)
Theorem single_bank_cycle_retracts (self : Person) (start : Floor)
    (dirn : option Z) (z : nat) (sim sim' : list ElevatorBank) :
  call_then_retract self start dirn (call_strategy_random z sim) sim = (Ok tt, sim') ->
  exists b, sim' !! z = Some b /\ still_waiting self start dirn b = false.
Proof.
  intros Hrun.
  apply (only_last_bank_retracted self start dirn [z] sim sim' z Hrun). reflexivity.
Qed.

Lemma single_bank_cycle_retracts_witness :
  exists b,
    snd (call_then_retract 7%nat (mkFloor 1) (Some 1)
           (call_strategy_random 1 two_banks) two_banks) !! 1%nat = Some b /\
    still_waiting 7%nat (mkFloor 1) (Some 1) b = false.
Proof.
  apply (single_bank_cycle_retracts 7%nat (mkFloor 1) (Some 1) 1 two_banks).
  vm_compute. reflexivity.
Defined.

(** X29. A trip that starts and ends on the same floor has direction [0], and
    the cycle then fails at its first step: [wait] raises the invalid-direction
    [ValueError] for the first chosen bank, and the simulation is left as it
    was.  The same holds for a direction of [None]. *)
Theorem cycle_without_direction_fails (self : Person) (start : Floor)
    (dirn : option Z) (a : nat) (rest : list nat) (sim : list ElevatorBank) :
  falsy dirn = true -> (a < length sim)%nat ->
  call_then_retract self start dirn (a :: rest) sim
    = (Raise (ValueError NotAValidDirection), sim).
Proof.
  intros Hd Ha. unfold call_then_retract. cbn [call_banks].
  apply lookup_lt_is_Some_2 in Ha as [bank Hbank]. rewrite Hbank.
  unfold wait. rewrite wait_set_falsy by exact Hd.
  now rewrite (list_insert_id _ _ _ Hbank).
Qed.

Lemma cycle_without_direction_fails_witness :
  call_then_retract 7%nat (mkFloor 1) (Some (floor_direction (mkFloor 1) (mkFloor 1)))
    [0%nat; 1%nat] two_banks
    = (Raise (ValueError NotAValidDirection), two_banks).
Proof.
  apply (cycle_without_direction_fails 7%nat (mkFloor 1)
           (Some (floor_direction (mkFloor 1) (mkFloor 1))) 0 [1%nat] two_banks).
  - reflexivity.
  - simpl. lia.
Defined.

Lemma wait_on_serviced_floor (person : Person) (floor : Floor) (dirn : option Z)
    (b : ElevatorBank) :
  wait_lists_ok b -> floor ∈ floors b -> falsy dirn = false ->
  exists b', wait person floor dirn b = (Ok tt, b') /\ elevators b' = elevators b.
Proof.
  intros Hok Hin Hd.
  destruct (dict_get_serviced b (side_of (dir_value dirn)) floor Hok Hin)
    as (s & _ & Hget).
  unfold wait. rewrite wait_set_truthy by exact Hd. rewrite Hget. simpl.
  eexists. split; [reflexivity|]. now destruct (side_of (dir_value dirn)).
Qed.

Lemma call_to_no_elevators (floor : Floor) (dirn : option Z) (b : ElevatorBank) :
  elevators b = [] -> call_to floor dirn b = (Raise AttributeError, b).
Proof. intros He. unfold call_to. now rewrite He. Qed.

(** X30. A call to a bank without elevators leaves the person registered: the
    cycle raises at [call_to] (the strategy returned [None]) after [wait] has
    put the person in the bank's wait set, and nothing takes the person out
    again. *)
Theorem failed_call_leaves_person_waiting (self : Person) (start : Floor)
    (dirn : option Z) (a : nat) (rest : list nat) (sim : list ElevatorBank)
    (bank : ElevatorBank) :
  sim !! a = Some bank -> elevators bank = [] ->
  wait_lists_ok bank -> start ∈ floors bank -> falsy dirn = false ->
  fst (call_then_retract self start dirn (a :: rest) sim) = Raise AttributeError /\
  listed_at self start dirn a (snd (call_then_retract self start dirn (a :: rest) sim)).
Proof.
  intros Hbank Hnone Hok Hin Hd.
  destruct (wait_on_serviced_floor self start dirn bank Hok Hin Hd)
    as (bank' & Hwait & Hel).
  rewrite Hnone in Hel.
  unfold call_then_retract. cbn [call_banks]. rewrite Hbank, Hwait.
  rewrite (call_to_no_elevators start dirn bank' Hel). simpl.
  split; [reflexivity|].
  exists bank'. split.
  - apply list_lookup_insert_eq. now apply lookup_lt_Some in Hbank.
  - now apply (wait_registers self start dirn bank).
Qed.

Lemma failed_call_leaves_person_waiting_witness :
  fst (call_then_retract 7%nat (mkFloor 1) (Some 1) [0%nat] [new_bank three_floors])
    = Raise AttributeError /\
  listed_at 7%nat (mkFloor 1) (Some 1) 0
    (snd (call_then_retract 7%nat (mkFloor 1) (Some 1) [0%nat] [new_bank three_floors])).
Proof.
  apply (failed_call_leaves_person_waiting 7%nat (mkFloor 1) (Some 1) 0 []
           [new_bank three_floors] (new_bank three_floors)).
  - reflexivity.
  - reflexivity.
  - apply new_bank_wait_lists_ok.
  - unfold three_floors. simpl. set_solver.
  - reflexivity.
Defined.
